(** * CARS tiling core: regions, tiles, terrain/epipolar correspondence
      and the cluster wrappers

    Shallow embedding of [cars/core/tiling.py] and of
    [cars/orchestrator/cluster/wrapper.py].

    Conventions of the embedding:
    - Python floats are idealised as rationals [Q] (no rounding, no NaN);
      Python ints are [Z]; loop counters that [range] keeps non-negative
      are [nat].
    - A region, the Python list [[xmin, ymin, xmax, ymax]], is a record.
    - A numpy array of 2D points of shape [(n0, n1, 2)] is a shape together
      with its row-major buffer; item access checks the bounds as numpy does.
    - Python exceptions are values of [exn]; fallible code lives in the
      [result] monad.
    - The objects the disk wrapper moves are values of [pyobj]; the file
      system is a state handed to the tile readers and writers, which are
      parameters; paths are joined as [posixpath.join] does. *)

From Stdlib Require Import QArith Qround Qminmax Lqa ZArith Lia Sorted Ascii.
From stdpp Require Import gmap strings list pretty.

Set Default Proof Using "Type".

(** ** Exceptions and the result monad *)

Inductive exn : Set :=
  | IndexError
  | KeyError
  | QhullError
  | TypeError
  | ValueError
  | ZeroDivisionError.

Inductive result (A : Type) : Type :=
  | Ok (a : A)
  | Raise (e : exn).
Arguments Ok {A} a.
Arguments Raise {A} e.

Global Instance result_ret : MRet result := @Ok.
Global Instance result_bind : MBind result := λ A B f m,
  match m with
  | Ok a => f a
  | Raise e => Raise e
  end.

(** [for x in xs: acc = body acc x], stopping at the first exception. *)
Fixpoint for_each {A St : Type} (body : St → A → result St) (xs : list A)
    (s : St) : result St :=
  match xs with
  | [] => Ok s
  | x :: xs' => s' ← body s x; for_each body xs' s'
  end.

(** Python's [range(lo, hi)] over integers. *)
Definition zrange (lo hi : Z) : list Z :=
  (λ k : nat, (lo + Z.of_nat k)%Z) <$> seq 0 (Z.to_nat (hi - lo)).

(** ** Regions *)

Record region : Set :=
  Region { x_min : Q; y_min : Q; x_max : Q; y_max : Q }.

Definition point : Set := (Q * Q)%type.

(** Python's two-argument [min] and [max] keep the first argument on ties,
    as [Qmin] and [Qmax] do. *)
Definition crop (region1 region2 : region) : region :=
  {| x_min := Qmin (x_max region2) (Qmax (x_min region2) (x_min region1));
     x_max := Qmin (x_max region2) (Qmax (x_min region2) (x_max region1));
     y_min := Qmin (y_max region2) (Qmax (y_min region2) (y_min region1));
     y_max := Qmin (y_max region2) (Qmax (y_min region2) (y_max region1)) |}.

(** [margins] is the list [[left, bottom, right, top]]. *)
Definition pad (r : region) (margins : Q * Q * Q * Q) : region :=
  let '(m0, m1, m2, m3) := margins in
  {| x_min := x_min r - m0; y_min := y_min r - m1;
     x_max := x_max r + m2; y_max := y_max r + m3 |}.

Definition empty (r : region) : bool :=
  Qle_bool (x_max r) (x_min r) || Qle_bool (y_max r) (y_min r).

(** Python's [min(iterable)] and [max(iterable)]: [ValueError] on an empty
    iterable, otherwise the first extremal element. *)
Definition py_min (l : list Q) : result Q :=
  match l with
  | [] => Raise ValueError
  | x :: l' => Ok (foldl Qmin x l')
  end.

Definition py_max (l : list Q) : result Q :=
  match l with
  | [] => Raise ValueError
  | x :: l' => Ok (foldl Qmax x l')
  end.

Definition union (regions : list region) : result (Q * Q * Q * Q) :=
  x0 ← py_min (x_min <$> regions);
  x1 ← py_max (x_max <$> regions);
  y0 ← py_min (y_min <$> regions);
  y1 ← py_max (y_max <$> regions);
  mret (x0, y0, x1, y1).

(** ** Tiles *)

Record tile_entry : Set := TileEntry { idx : Z; idy : Z; tile : region }.

(** The box of tile [(tx, ty)] of the regular tiling of step [tile_size]. *)
Definition tile_box (tile_size : Q) (tx ty : Z) : region :=
  {| x_min := inject_Z tx * tile_size;
     y_min := inject_Z ty * tile_size;
     x_max := inject_Z (tx + 1) * tile_size;
     y_max := inject_Z (ty + 1) * tile_size |}.

Definition list_tiles_column (largest_region : region) (tile_size : Q)
    (tile_idx_x : Z) (ys : list Z) : list tile_entry :=
  omap (λ tile_idx_y,
          let t := crop (tile_box tile_size tile_idx_x tile_idx_y)
                        largest_region in
          if empty t then None
          else Some (TileEntry tile_idx_x tile_idx_y t)) ys.

Definition list_tiles (r largest_region : region) (tile_size : Q)
    (margin : Z) : result (list tile_entry) :=
  if Qeq_bool tile_size 0 then Raise ZeroDivisionError
  else
    let min_tile_idx_x := (Qfloor (x_min r / tile_size) - margin)%Z in
    let max_tile_idx_x := (Qceiling (x_max r / tile_size) + margin)%Z in
    let min_tile_idx_y := (Qfloor (y_min r / tile_size) - margin)%Z in
    let max_tile_idx_y := (Qceiling (y_max r / tile_size) + margin)%Z in
    Ok (zrange min_tile_idx_x max_tile_idx_x ≫=
          (λ tile_idx_x,
             list_tiles_column largest_region tile_size tile_idx_x
               (zrange min_tile_idx_y max_tile_idx_y))).

(** The default value of [list_tiles]'s [margin] parameter. *)
Definition list_tiles_default_margin : Z := 1.

(** ** numpy arrays of points *)

(** An array of shape [(shape0, shape1, 2)] (or [(shape0, shape1)] for
    scalar items) with its C-contiguous buffer. *)
Record ndarray (A : Type) : Type :=
  NdArray { shape0 : nat; shape1 : nat; data : list A }.
Arguments NdArray {A} shape0 shape1 data.
Arguments shape0 {A} n.
Arguments shape1 {A} n.
Arguments data {A} n.

(** [a[j, i]] for non-negative indices. *)
Definition getitem {A} (a : ndarray A) (j i : nat) : result A :=
  if bool_decide (j < shape0 a ∧ i < shape1 a)%nat then
    match data a !! (j * shape1 a + i)%nat with
    | Some v => Ok v
    | None => Raise IndexError
    end
  else Raise IndexError.

(** [a[j, i] = f(a[j, i])], used for the writes [a[j, i, 0] = v] and
    [a[j, i, 1] = v] that replace one coordinate of the stored point. *)
Definition setitem {A} (a : ndarray A) (j i : nat) (f : A → A)
  : result (ndarray A) :=
  if bool_decide (j < shape0 a ∧ i < shape1 a)%nat then
    Ok (NdArray (shape0 a) (shape1 a)
          (alter f (j * shape1 a + i)%nat (data a)))
  else Raise IndexError.

(** [np.ndarray(shape=(n0, n1, 2))]: fresh memory whose content is
    whatever [uninit] says it is; negative dimensions are refused. *)
Definition np_ndarray (uninit : nat → point) (n0 n1 : Z)
  : result (ndarray point) :=
  if bool_decide (n0 < 0 ∨ n1 < 0)%Z then Raise ValueError
  else Ok (NdArray (Z.to_nat n0) (Z.to_nat n1)
             (uninit <$> seq 0 (Z.to_nat n0 * Z.to_nat n1))).

(** [arr.reshape(-1, arr.shape[-1])] *)
Definition reshape_flat {A} (a : ndarray A) : list A := data a.

Definition grid (uninit : nat → point)
    (xmin ymin xmax ymax xsplit ysplit : Q) : result (ndarray point) :=
  if Qeq_bool xsplit 0 then Raise ZeroDivisionError
  else
    let nb_xsplits := Qceiling ((xmax - xmin) / xsplit) in
    if Qeq_bool ysplit 0 then Raise ZeroDivisionError
    else
      let nb_ysplits := Qceiling ((ymax - ymin) / ysplit) in
      out_grid ← np_ndarray uninit (nb_ysplits + 1) (nb_xsplits + 1);
      for_each (λ out_grid i,
        for_each (λ out_grid j,
          out_grid ← setitem out_grid j i
            (λ p, (Qmin xmax (xmin + inject_Z (Z.of_nat i) * xsplit), p.2));
          setitem out_grid j i
            (λ p, (p.1, Qmin ymax (ymin + inject_Z (Z.of_nat j) * ysplit))))
          (seq 0 (Z.to_nat (nb_ysplits + 1))) out_grid)
        (seq 0 (Z.to_nat (nb_xsplits + 1))) out_grid.

(** ** Splitting, snapping and sizing regions *)

(** The two nested loops append one cropped cell per pair of indices, the
    x index in the outer loop. *)
Definition split (xmin ymin xmax ymax xsplit ysplit : Q)
  : result (list region) :=
  if Qeq_bool xsplit 0 then Raise ZeroDivisionError
  else
    let nb_xsplits := Qceiling ((xmax - xmin) / xsplit) in
    if Qeq_bool ysplit 0 then Raise ZeroDivisionError
    else
      let nb_ysplits := Qceiling ((ymax - ymin) / ysplit) in
      Ok (i ← zrange 0 nb_xsplits;
          j ← zrange 0 nb_ysplits;
          [crop {| x_min := xmin + inject_Z i * xsplit;
                   y_min := ymin + inject_Z j * ysplit;
                   x_max := xmin + inject_Z (i + 1) * xsplit;
                   y_max := ymin + inject_Z (j + 1) * ysplit |}
                (Region xmin ymin xmax ymax)]).




(** ** Filtering simplices on the edges *)

(** One-dimensional integer indexing of a Python list or a numpy array:
    negative indices count from the end, anything else out of range raises
    [IndexError]. *)
Definition py_index {A} (l : list A) (i : Z) : result A :=
  let n := Z.of_nat (length l) in
  let k := if bool_decide (i < 0)%Z then (i + n)%Z else i in
  if bool_decide (0 ≤ k < n)%Z then
    match l !! Z.to_nat k with
    | Some v => Ok v
    | None => Raise IndexError
    end
  else Raise IndexError.

(** A simplex of a 2D triangulation: the indices of its three vertices in
    the array of points the triangulation was built from. *)
Definition simplex : Set := (nat * nat * nat)%type.

(** The value [edges[k, r, c]] after the four slice assignments
    [edges[0, :, 0] = 1] (left), [edges[1, -1, :] = 1] (bottom),
    [edges[2, :, -1] = 1] (right) and [edges[3, 0, :] = 1] (top) on
    [np.zeros((4, n0, n1))]. The flags are the floats 0.0 and 1.0. *)
Definition edge_flag (k n0 n1 r c : nat) : Z :=
  match k with
  | 0%nat => if bool_decide (c = 0)%nat then 1 else 0
  | 1%nat => if bool_decide (r = n0 - 1)%nat then 1 else 0
  | 2%nat => if bool_decide (c = n1 - 1)%nat then 1 else 0
  | _ => if bool_decide (r = 0)%nat then 1 else 0
  end.

(** [np.ravel(edges[k, :, :])] *)
Definition edges_ravel (k n0 n1 : nat) : list Z :=
  r ← seq 0 n0; c ← seq 0 n1; [edge_flag k n0 n1 r c].

(** [np.sum(edges_ravel[tri.simplices], axis=1) == 3] *)
Definition edges_simplices (ravel : list Z) (tri_simplices : list simplex)
  : result (list bool) :=
  mapM (λ '(a, b, c),
          fa ← py_index ravel (Z.of_nat a);
          fb ← py_index ravel (Z.of_nat b);
          fc ← py_index ravel (Z.of_nat c);
          mret (bool_decide (fa + fb + fc = 3)%Z)) tri_simplices.

(** [simplices[mask[simplices]] = -1] on the buffer of [simplices]. *)
Definition mask_simplices (mask : list bool) (simplices : list Z)
  : result (list Z) :=
  mapM (λ s, b ← py_index mask s; mret (if b : bool then (-1)%Z else s))
       simplices.

(** One round of the loop on the four sides. The selected-simplices array
    is mutated in place; the embedding returns the array as the round
    leaves it. *)
Definition filter_side (n0 n1 : nat) (tri_simplices : list simplex)
    (simplices : ndarray Z) (k : nat) : result (ndarray Z) :=
  let ravel := edges_ravel k n0 n1 in
  mask ← edges_simplices ravel tri_simplices;
  buf ← mask_simplices mask (data simplices);
  mret (NdArray (shape0 simplices) (shape1 simplices) buf).

(** The slice assignments on [edges] raise [IndexError] when the grid has
    no row or no column. *)
Definition filter_simplices_on_the_edges (original_grid_shape : nat * nat)
    (tri_simplices : list simplex) (simplices : ndarray Z)
  : result (ndarray Z) :=
  let '(n0, n1) := original_grid_shape in
  if bool_decide (n0 = 0 ∨ n1 = 0)%nat then Raise IndexError
  else for_each (filter_side n0 n1 tri_simplices) (seq 0 4) simplices.

(** ** Terrain grid to epipolar bounds *)

Definition pt_min (p q : point) : point := (Qmin p.1 q.1, Qmin p.2 q.2).
Definition pt_max (p q : point) : point := (Qmax p.1 q.1, Qmax p.2 q.2).
Definition pt_scale (f : Q) (p : point) : point := (p.1 * f, p.2 * f)%Q.

(** A triangulation as [scipy.spatial.Delaunay] exposes it. *)
Record triangulation : Set :=
  Triangulation { tri_points : list point; simplices : list simplex }.

Section Correspondence.
(** External collaborators: the spatial reference database, qhull's
    triangulation, point location in a triangulation and the k-d tree's
    nearest neighbour query (index of the nearest point). *)
Variable IsGeographic : Z → bool.
Variable Delaunay : list point → result triangulation.
Variable tsearch : triangulation → point → Z.
Variable cKDTree_query : list point → point → Z.

(** [flat[tri.simplices[s]]], the three vertex positions. *)
Definition simplex_points (flat : list point) (tri : triangulation) (s : Z)
  : result (point * point * point) :=
  '(a, b, c) ← py_index (simplices tri) s;
  pa ← py_index flat (Z.of_nat a);
  pb ← py_index flat (Z.of_nat b);
  pc ← py_index flat (Z.of_nat c);
  mret (pa, pb, pc).

(** [np.min(_, axis=2)] and [np.max(_, axis=2)] over the three vertices. *)
Definition min3 (t : point * point * point) : point :=
  let '(a, b, c) := t in pt_min (pt_min a b) c.
Definition max3 (t : point * point * point) : point :=
  let '(a, b, c) := t in pt_max (pt_max a b) c.

(** [np.where(np.stack((s, s), axis=-1) != -1, found, nn)] at one point. *)
Definition np_where (s : Z) (found nn : point) : point :=
  if bool_decide (s ≠ -1)%Z then found else nn.

(** What one disparity bound contributes at one query point once the
    simplices have been filtered: [(points_disp_*_min, points_disp_*_max)]. *)
Definition bound_extremes (flat : list point) (tri : triangulation)
    (sample : list point) (precision_factor : Q) (s : Z) (q : point)
  : result (point * point) :=
  points_disp ← simplex_points flat tri s;
  nn_disp ← py_index flat
              (cKDTree_query sample (pt_scale precision_factor q));
  mret (np_where s (min3 points_disp) nn_disp,
        np_where s (max3 points_disp) nn_disp).

Definition terrain_grid_to_epipolar (terrain_grid : ndarray point)
    (epipolar_regions_grid : ndarray point)
    (epipolar_grid_min epipolar_grid_max : list point) (epsg : Z)
  : result (ndarray point * ndarray point) :=
  let epipolar_regions_grid_shape :=
    (shape0 epipolar_regions_grid, shape1 epipolar_regions_grid) in
  let epipolar_regions_grid_flat := reshape_flat epipolar_regions_grid in
  let precision_factor : Q := if IsGeographic epsg then 1000%Q else 1%Q in
  let sample_min := pt_scale precision_factor <$> epipolar_grid_min in
  let sample_max := pt_scale precision_factor <$> epipolar_grid_max in
  tri_min ← Delaunay sample_min;
  tri_max ← Delaunay sample_max;
  let queries := data terrain_grid in
  let located (tri : triangulation) :=
    NdArray (shape0 terrain_grid) (shape1 terrain_grid)
      ((λ q, tsearch tri (pt_scale precision_factor q)) <$> queries) in
  s_min ← filter_simplices_on_the_edges epipolar_regions_grid_shape
            (simplices tri_min) (located tri_min);
  s_max ← filter_simplices_on_the_edges epipolar_regions_grid_shape
            (simplices tri_max) (located tri_max);
  ext_min ← mapM (λ '(s, q),
               bound_extremes epipolar_regions_grid_flat tri_min
                 sample_min precision_factor s q)
             (zip (data s_min) queries);
  ext_max ← mapM (λ '(s, q),
               bound_extremes epipolar_regions_grid_flat tri_max
                 sample_max precision_factor s q)
             (zip (data s_max) queries);
  let points := zip ext_min ext_max in
  mret (NdArray (shape0 terrain_grid) (shape1 terrain_grid)
          ((λ '((min_min, min_max), (max_min, max_max)),
              pt_min (pt_min (pt_min min_min min_max) max_min) max_max)
             <$> points),
        NdArray (shape0 terrain_grid) (shape1 terrain_grid)
          ((λ '((min_min, min_max), (max_min, max_max)),
              pt_max (pt_max (pt_max min_min min_max) max_min) max_max)
             <$> points)).
End Correspondence.

(** ** Epipolar tiles required by a terrain tile *)

(** The values found in a dataset's [attributes] dictionary. *)
Inductive attr_value : Set :=
  | AttrRegion (r : region)
  | AttrInt (n : Z).

(** What the function reads of a [CarsDataset]: its [attributes], the
    shape of its [tiling_grid] (one box per tile) and its tiles, a list of
    rows read by [dataset[row, col]]. *)
Record CarsDataset (T : Type) : Type :=
  { attributes : gmap string attr_value;
    tiling_grid : ndarray (Q * Q * Q * Q);
    tiles : list (list T) }.
Arguments attributes {T} c.
Arguments tiling_grid {T} c.
Arguments tiles {T} c.

Definition attr_region {T} (ds : CarsDataset T) (key : string)
  : result region :=
  match attributes ds !! key with
  | Some (AttrRegion r) => Ok r
  | Some _ => Raise TypeError
  | None => Raise KeyError
  end.

Definition attr_int {T} (ds : CarsDataset T) (key : string) : result Z :=
  match attributes ds !! key with
  | Some (AttrInt n) => Ok n
  | Some _ => Raise TypeError
  | None => Raise KeyError
  end.

(** [dataset[id_y, id_x]] is [dataset.tiles[id_y][id_x]]. *)
Definition ds_getitem {T} (ds : CarsDataset T) (id_y id_x : Z) : result T :=
  row ← py_index (tiles ds) id_y; py_index row id_x.

(** The epipolar bounding region of terrain cell [(j, i)] for one pair,
    before cropping: the envelope of the eight bounds at its corners. *)
Definition cell_epipolar_region
    (epipolar_points_min epipolar_points_max : ndarray point) (j i : nat)
  : result region :=
  min00 ← getitem epipolar_points_min j i;
  min10 ← getitem epipolar_points_min (j + 1) i;
  min11 ← getitem epipolar_points_min (j + 1) (i + 1);
  min01 ← getitem epipolar_points_min j (i + 1);
  max00 ← getitem epipolar_points_max j i;
  max10 ← getitem epipolar_points_max (j + 1) i;
  max11 ← getitem epipolar_points_max (j + 1) (i + 1);
  max01 ← getitem epipolar_points_max j (i + 1);
  let tile_min :=
    pt_min (pt_min (pt_min min00 min10) (pt_min min11 min01))
           (pt_min (pt_min max00 max10) (pt_min max11 max01)) in
  let tile_max :=
    pt_max (pt_max (pt_max min00 min10) (pt_max min11 min01))
           (pt_max (pt_max max00 max10) (pt_max max11 max01)) in
  mret {| x_min := tile_min.1; y_min := tile_min.2;
          x_max := tile_max.1; y_max := tile_max.2 |}.

Section RequiredTiles.
Context {T : Type}.

(** The three lists the loop appends to. *)
Record required : Type :=
  Required { required_point_clouds_left : list T;
             required_point_clouds_right : list T;
             list_indexes : list (Z * Z) }.

(** The body of the loop on the epipolar tiles listed for one pair. *)
Definition take_tile (pc_left pc_right : CarsDataset T) (acc : required)
    (epipolar_tile : tile_entry) : result required :=
  let id_x := idx epipolar_tile in
  let id_y := idy epipolar_tile in
  let epi_grid_shape :=
    (shape0 (tiling_grid pc_left), shape1 (tiling_grid pc_left)) in
  if bool_decide (0 ≤ id_x < Z.of_nat epi_grid_shape.2
                  ∧ 0 ≤ id_y < Z.of_nat epi_grid_shape.1)%Z then
    left ← ds_getitem pc_left id_y id_x;
    right ← ds_getitem pc_right id_y id_x;
    mret (Required (required_point_clouds_left acc ++ [left])
                   (required_point_clouds_right acc ++ [right])
                   (list_indexes acc ++ [(id_y, id_x)]))
  else Ok acc.

(** The cropped epipolar region of terrain cell [(j, i)] for one pair,
    with the attributes the loop body reads first. *)
Definition pair_epipolar_region (pc_left : CarsDataset T)
    (epipolar_points_min epipolar_points_max : ndarray point) (j i : nat)
  : result (region * region * Z) :=
  largest_epipolar_region ← attr_region pc_left "largest_epipolar_region";
  opt_epipolar_tile_size ← attr_int pc_left "opt_epipolar_tile_size";
  epipolar_region ←
    cell_epipolar_region epipolar_points_min epipolar_points_max j i;
  mret (crop epipolar_region largest_epipolar_region,
        largest_epipolar_region, opt_epipolar_tile_size).

(** The body of the loop on the stereo pairs. *)
Definition take_pair (j i : nat) (acc : required)
    (pair : CarsDataset T * CarsDataset T * ndarray point * ndarray point)
  : result required :=
  let '(pc_left, pc_right, epipolar_points_min, epipolar_points_max) :=
    pair in
  '(epipolar_region, largest_epipolar_region, opt_epipolar_tile_size) ←
    pair_epipolar_region pc_left epipolar_points_min epipolar_points_max
      j i;
  if empty epipolar_region then Ok acc
  else
    epipolar_tiles ← list_tiles epipolar_region largest_epipolar_region
                       (inject_Z opt_epipolar_tile_size)
                       list_tiles_default_margin;
    for_each (take_tile pc_left pc_right) epipolar_tiles acc.

(** Python's [zip] of the four lists stops at the shortest one. *)
Definition zip4 {A B C D} (la : list A) (lb : list B) (lc : list C)
    (ld : list D) : list (A * B * C * D) :=
  zip (zip (zip la lb) lc) ld.

Definition get_corresponding_tiles_row_col (terrain_grid : ndarray point)
    (row col : nat)
    (list_points_clouds_left list_points_clouds_right
       : list (CarsDataset T))
    (list_epipolar_points_min list_epipolar_points_max
       : list (ndarray point))
  : result (region * list T * list T * Z * list (Z * Z)) :=
  let j := row in
  let i := col in
  p00 ← getitem terrain_grid j i;
  p11 ← getitem terrain_grid (j + 1) (i + 1);
  let terrain_region :=
    {| x_min := p00.1; y_min := p00.2; x_max := p11.1; y_max := p11.2 |} in
  acc ← for_each (take_pair j i)
          (zip4 list_points_clouds_left list_points_clouds_right
                list_epipolar_points_min list_epipolar_points_max)
          (Required [] [] []);
  let rank := (Z.of_nat i * Z.of_nat i + Z.of_nat j * Z.of_nat j)%Z in
  mret (terrain_region, required_point_clouds_left acc,
        required_point_clouds_right acc, rank, list_indexes acc).
End RequiredTiles.
Arguments required T : clear implicits.

(** ** The disk wrapper's id counter *)

Inductive wrapper_fun : Set := disk_wrapper_fun | none_wrapper_fun.

Section Wrapper.
(** Task functions and the other keyword argument values are opaque. *)
Variables (Func Val : Type).

Inductive kwarg : Type :=
  | KwIdList (id_list : list Z)
  | KwFun (func : Func)
  | KwStr (s : string)
  | KwVal (v : Val).

Record WrapperDisk : Type :=
  { tmp_dir : string; current_object_id : Z }.

(** [os.path.join] is left to the platform. Creating the directory is a
    file system effect the embedding does not follow. *)
Variable path_join : string → string → string.

Definition WrapperDisk_init (dir : string) : WrapperDisk :=
  {| tmp_dir := path_join dir "tmp"; current_object_id := 0 |}.

(** One round of [for _ in range(nout)]: append the counter to
    [id_list], then increment the counter. *)
Definition issue_id (st : WrapperDisk * list Z) : WrapperDisk * list Z :=
  let '(self, id_list) := st in
  ({| tmp_dir := tmp_dir self;
      current_object_id := current_object_id self + 1 |},
   id_list ++ [current_object_id self]).

(** Each task call has a keyword dictionary of its own; it is updated and
    handed back. *)
Definition get_function_and_kwargs (self : WrapperDisk) (func : Func)
    (kwargs : gmap string kwarg) (nout : Z)
  : WrapperDisk * (wrapper_fun * gmap string kwarg) :=
  let new_func := disk_wrapper_fun in
  let '(self, id_list) :=
    Nat.iter (Z.to_nat nout) issue_id (self, []) in
  let new_kwargs := <["id_list" := KwIdList id_list]> kwargs in
  let new_kwargs := <["fun" := KwFun func]> new_kwargs in
  let new_kwargs := <["tmp_dir" := KwStr (tmp_dir self)]> new_kwargs in
  (self, (new_func, new_kwargs)).

(** The ids a call put in the keyword arguments it returned. *)
Definition issued_ids (out : wrapper_fun * gmap string kwarg) : list Z :=
  match out.2 !! "id_list" with
  | Some (KwIdList ids) => ids
  | _ => []
  end.

(** A sequence of calls on one wrapper instance; the results are kept in
    call order. *)
Fixpoint run_calls (self : WrapperDisk)
    (calls : list (Func * gmap string kwarg * Z))
  : WrapperDisk * list (wrapper_fun * gmap string kwarg) :=
  match calls with
  | [] => (self, [])
  | (func, kwargs, nout) :: calls' =>
      let '(self, out) := get_function_and_kwargs self func kwargs nout in
      let '(self, outs) := run_calls self calls' in
      (self, out :: outs)
  end.
End Wrapper.
Arguments KwIdList {Func Val} id_list.
Arguments KwFun {Func Val} func.
Arguments KwStr {Func Val} s.
Arguments KwVal {Func Val} v.
Arguments issue_id st : simpl never.
Arguments get_function_and_kwargs {Func Val} self func kwargs nout.
Arguments issued_ids {Func Val} out.
Arguments run_calls {Func Val} self calls.

(** ** The wrappers' task functions *)

Section WrapperCalls.
Context {Func Val Arg Res : Type}.

(** Calling a task function on positional and keyword arguments. *)
Variable call : Func → list Arg → gmap string (kwarg Func Val) → result Res.

(** [WrapperNone.get_function_and_kwargs]: [new_kwargs] is the caller's
    dictionary under another name, so the entry written through it is in the
    [kwargs] that is returned. *)
Definition WrapperNone_get_function_and_kwargs (func : Func)
    (kwargs : gmap string (kwarg Func Val)) (nout : Z)
  : wrapper_fun * gmap string (kwarg Func Val) :=
  let new_func := none_wrapper_fun in
  let new_kwargs := <["fun" := KwFun func]> kwargs in
  (new_func, new_kwargs).

(** [kwargs[key]]. *)
Definition kwargs_getitem (kwargs : gmap string (kwarg Func Val))
    (key : string) : result (kwarg Func Val) :=
  match kwargs !! key with
  | Some v => Ok v
  | None => Raise KeyError
  end.

(** Calling [func] on the positional and the keyword arguments; among the
    keyword values only a function is callable. *)
Definition py_call (func : kwarg Func Val) (argv : list Arg)
    (kwargs : gmap string (kwarg Func Val)) : result Res :=
  match func with
  | KwFun f => call f argv kwargs
  | _ => Raise TypeError
  end.

(** The function [none_wrapper_fun] stands for. *)
Definition run_none_wrapper_fun (argv : list Arg)
    (kwargs : gmap string (kwarg Func Val)) : result Res :=
  func ← kwargs_getitem kwargs "fun";
  let kwargs := delete "fun" kwargs in
  py_call func argv kwargs.

(** The first part of the function [disk_wrapper_fun] stands for: the
    three entries of the wrapper are read, then popped. *)
Definition disk_wrapper_fun_args (kwargs : gmap string (kwarg Func Val))
  : result (kwarg Func Val * kwarg Func Val * kwarg Func Val
            * gmap string (kwarg Func Val)) :=
  id_list ← kwargs_getitem kwargs "id_list";
  func ← kwargs_getitem kwargs "fun";
  tmp_dir ← kwargs_getitem kwargs "tmp_dir";
  let kwargs := delete "id_list" kwargs in
  let kwargs := delete "fun" kwargs in
  let kwargs := delete "tmp_dir" kwargs in
  Ok (id_list, func, tmp_dir, kwargs).
End WrapperCalls.

(** ** Objects dumped to disk and their paths *)

Definition DENSE_NAME : string := "DenseDO".
Definition SPARSE_NAME : string := "SparseDO".

(** Python's [needle in s] on strings. *)
Fixpoint str_in (needle s : string) : bool :=
  String.prefix needle s
  || match s with
     | EmptyString => false
     | String _ s' => str_in needle s'
     end.

(** [s.endswith("/")]. *)
Fixpoint endswith_sep (s : string) : bool :=
  match s with
  | EmptyString => false
  | String c EmptyString => bool_decide (String c EmptyString = "/")
  | String _ s' => endswith_sep s'
  end.

(** [os.path.join(a, b)] on a POSIX platform: an absolute [b] replaces [a],
    otherwise [b] is appended, after a separator unless [a] is empty or ends
    with one. *)
Definition posix_join (a b : string) : string :=
  if String.prefix "/" b then b
  else if bool_decide (a = "") || endswith_sep a then a +:+ b
  else a +:+ "/" +:+ b.

(** The two kinds of [CarsDataset]: ["arrays"] and ["points"]. *)
Inductive dataset_type : Set := Arrays | Points.

Global Instance dataset_type_eq_dec : EqDecision dataset_type.
Proof. solve_decision. Defined.

#[local] Set Warnings "-register-all".

Section WrapperObjects.
(** [Dataset] stands for [xr.Dataset], [DataFrame] for [pandas.DataFrame]
    and [Opaque] for the objects of any other class but [str], [list] and
    [tuple] (numbers, dictionaries, arrays: a string cannot be added to
    them). *)
Variables (Dataset DataFrame Opaque : Type).

Inductive pyobj : Type :=
  | PyNone
  | PyStr (s : string)
  | PyList (l : list pyobj)
  | PyTuple (l : list pyobj)
  | PyDataset (d : Dataset)
  | PyDataFrame (d : DataFrame)
  | PyOpaque (v : Opaque).

(** [Disk] is the state of the file system; [TileError] is what the tile
    readers and writers may raise. *)
Variables (Disk TileError : Type).

Inductive raised : Type :=
  | Builtin (e : exn)
  | Exception (msg : string)
  | Tile (e : TileError).

Inductive outcome (A : Type) : Type :=
  | Return (a : A)
  | Raises (e : raised).
Arguments Return {A} a.
Arguments Raises {A} e.

#[export] Instance outcome_ret : MRet outcome := @Return.
#[export] Instance outcome_bind : MBind outcome := λ A B f m,
  match m with
  | Return a => f a
  | Raises e => Raises e
  end.
#[export] Instance outcome_fmap : FMap outcome := λ A B f m,
  match m with
  | Return a => Return (f a)
  | Raises e => Raises e
  end.

(** [CarsDataset(kind).load_single_tile(path)] and
    [CarsDataset(kind).save_single_tile(obj, path)] are left to
    [cars_dataset]; so is [obj[i]] on an object that is neither a sequence
    nor [None]. *)
Variable load_single_tile : dataset_type → string → Disk → outcome pyobj.
Variable save_single_tile :
  dataset_type → pyobj → string → Disk → outcome Disk.
Variable foreign_getitem : pyobj → nat → outcome pyobj.

Definition is_dumped_object (obj : pyobj) : bool :=
  match obj with
  | PyStr s => str_in DENSE_NAME s || str_in SPARSE_NAME s
  | _ => false
  end.

(** [path] is a string or [None]. *)
Definition load (path : option string) (disk : Disk) : outcome pyobj :=
  match path with
  | Some p =>
      if str_in DENSE_NAME p then load_single_tile Arrays p disk
      else if str_in SPARSE_NAME p then load_single_tile Points p disk
      else Return (PyStr p)
  | None => Return PyNone
  end.

(** One round of the loop of [load_args]; on a list the function calls
    itself. *)
Fixpoint load_arg (disk : Disk) (arg : pyobj) : outcome pyobj :=
  match arg with
  | PyList l => PyList <$> mapM (load_arg disk) l
  | PyStr s => if is_dumped_object arg then load (Some s) disk else Return arg
  | _ => Return arg
  end.

Definition load_args (args : list pyobj) (disk : Disk)
  : outcome (list pyobj) :=
  mapM (load_arg disk) args.

(** The keyword dictionary in insertion order, the order of [for key in
    kwargs]. *)
Definition load_kwargs (kwargs : list (string * pyobj)) (disk : Disk)
  : outcome (list (string * pyobj)) :=
  mapM (λ '(key, v),
          match v with
          | PyStr s =>
              if is_dumped_object v
              then v' ← load (Some s) disk; Return (key, v')
              else Return (key, v)
          | _ => Return (key, v)
          end) kwargs.

Definition dump_single_object (obj : pyobj) (path : string) (disk : Disk)
  : outcome Disk :=
  match obj with
  | PyDataset _ => save_single_tile Arrays obj path disk
  | PyDataFrame _ => save_single_tile Points obj path disk
  | _ => Raises (Exception "Not an arrays or points")
  end.

(** [repr] of an integer is its decimal writing, [pretty]. For an object
    that is neither a [Dataset] nor a [DataFrame], [path] is the object
    itself and [path + "_"] needs a string. *)
Definition create_path (obj : pyobj) (tmp_dir : string) (id_num : Z)
  : outcome string :=
  path ← match obj with
         | PyDataset _ => Return DENSE_NAME
         | PyDataFrame _ => Return SPARSE_NAME
         | PyStr s => Return s
         | _ => Raises (Builtin TypeError)
         end;
  Return (posix_join tmp_dir (path +:+ "_" +:+ pretty id_num)).

(** [res[i]]. *)
Definition obj_getitem (res : pyobj) (i : nat) : outcome pyobj :=
  match res with
  | PyList l | PyTuple l =>
      match l !! i with
      | Some x => Return x
      | None => Raises (Builtin IndexError)
      end
  | PyStr s =>
      match String.get i s with
      | Some c => Return (PyStr (String c EmptyString))
      | None => Raises (Builtin IndexError)
      end
  | PyNone => Raises (Builtin TypeError)
  | _ => foreign_getitem res i
  end.

(** One round of [for i, single_id in enumerate(id_list)]. *)
Definition dump_round (res : pyobj) (tmp_dir : string)
    (st : list pyobj * Disk) (round : nat * Z) : outcome (list pyobj * Disk) :=
  let '(paths, disk) := st in
  let '(i, single_id) := round in
  res_i ← obj_getitem res i;
  match res_i with
  | PyNone => Return (paths ++ [PyNone], disk)
  | _ =>
      path ← create_path res_i tmp_dir single_id;
      disk ← dump_single_object res_i path disk;
      Return (paths ++ [PyStr path], disk)
  end.

Fixpoint dump_rounds (res : pyobj) (tmp_dir : string)
    (rounds : list (nat * Z)) (st : list pyobj * Disk)
  : outcome (list pyobj * Disk) :=
  match rounds with
  | [] => Return st
  | round :: rounds' =>
      st' ← dump_round res tmp_dir st round;
      dump_rounds res tmp_dir rounds' st'
  end.

Definition dump (res : pyobj) (tmp_dir : string) (id_list : list Z)
    (disk : Disk) : outcome (pyobj * Disk) :=
  if bool_decide (1 < length id_list)%nat then
    '(paths, disk) ← dump_rounds res tmp_dir (imap pair id_list) ([], disk);
    Return (PyTuple paths, disk)
  else
    match id_list !! 0%nat with
    | Some single_id =>
        paths ← create_path res tmp_dir single_id;
        disk ← dump_single_object res paths disk;
        Return (PyStr paths, disk)
    | None => Raises (Builtin IndexError)
    end.
End WrapperObjects.
Arguments PyNone {Dataset DataFrame Opaque}.
Arguments PyStr {Dataset DataFrame Opaque} s.
Arguments PyList {Dataset DataFrame Opaque} l.
Arguments PyTuple {Dataset DataFrame Opaque} l.
Arguments PyDataset {Dataset DataFrame Opaque} d.
Arguments PyDataFrame {Dataset DataFrame Opaque} d.
Arguments PyOpaque {Dataset DataFrame Opaque} v.
Arguments Builtin {TileError} e.
Arguments Exception {TileError} msg.
Arguments Tile {TileError} e.
Arguments Return {TileError A} a.
Arguments Raises {TileError A} e.
Arguments is_dumped_object {Dataset DataFrame Opaque} obj.
Arguments load {Dataset DataFrame Opaque Disk TileError} load_single_tile
  path disk.
Arguments load_arg {Dataset DataFrame Opaque Disk TileError} load_single_tile
  disk arg.
Arguments load_args {Dataset DataFrame Opaque Disk TileError} load_single_tile
  args disk.
Arguments load_kwargs {Dataset DataFrame Opaque Disk TileError}
  load_single_tile kwargs disk.
Arguments dump_single_object {Dataset DataFrame Opaque Disk TileError}
  save_single_tile obj path disk.
Arguments create_path {Dataset DataFrame Opaque TileError} obj tmp_dir id_num.
Arguments obj_getitem {Dataset DataFrame Opaque TileError} foreign_getitem
  res i.
Arguments dump_round {Dataset DataFrame Opaque Disk TileError}
  save_single_tile foreign_getitem res tmp_dir st round.
Arguments dump_rounds {Dataset DataFrame Opaque Disk TileError}
  save_single_tile foreign_getitem res tmp_dir rounds st.
Arguments dump {Dataset DataFrame Opaque Disk TileError}
  save_single_tile foreign_getitem res tmp_dir id_list disk.

(** * Vocabulary of the properties *)

(** ** Regions and tiles *)

(** Two regions are separated when a vertical or a horizontal line keeps
    them apart. *)
Definition separated (r b : region) : Prop :=
  (x_max r <= x_min b)%Q ∨ (x_max b <= x_min r)%Q ∨
  (y_max r <= y_min b)%Q ∨ (y_max b <= y_min r)%Q.

(** A point strictly inside a region. *)
Definition interior (r : region) (p : point) : Prop :=
  (x_min r < p.1 < x_max r)%Q ∧ (y_min r < p.2 < y_max r)%Q.

(** The least and the greatest element of a list, one of its elements. *)
Definition is_least (a : Q) (l : list Q) : Prop :=
  a ∈ l ∧ Forall (λ x, (a <= x)%Q) l.

Definition is_greatest (a : Q) (l : list Q) : Prop :=
  a ∈ l ∧ Forall (λ x, (x <= a)%Q) l.

(** The corner the loops of [grid] write at [[j, i]]. *)
Definition grid_corner (xmin ymin xmax ymax xsplit ysplit : Q) (j i : nat)
  : point :=
  (Qmin xmax (xmin + inject_Z (Z.of_nat i) * xsplit),
   Qmin ymax (ymin + inject_Z (Z.of_nat j) * ysplit)).

(** Tile [(tx, ty)], widened by [margin] tiles on every side, reaches into
    the region. *)
Definition tile_in_range (r : region) (tile_size : Q) (margin tx ty : Z)
  : Prop :=
  (x_min r < inject_Z (tx + margin + 1) * tile_size)%Q ∧
  (inject_Z (tx - margin) * tile_size < x_max r)%Q ∧
  (y_min r < inject_Z (ty + margin + 1) * tile_size)%Q ∧
  (inject_Z (ty - margin) * tile_size < y_max r)%Q.

(** Two regions overlap when some point lies strictly inside both. *)
Definition overlaps (a b : region) : Prop := ∃ p, interior a p ∧ interior b p.

(** The reading of the tie-break under which every region edge lying on a
    tile boundary goes to the lower-index tile: when a vertical edge of the
    region lies on the boundary between tile columns [k - 1] and [k], a tile
    of column [k - 1] is returned. *)
Definition lower_index_tie_break (r largest_region : region) (tile_size : Q)
  : Prop :=
  ∀ out, list_tiles r largest_region tile_size 0 = Ok out →
    ∀ k : Z,
      (x_min r == inject_Z k * tile_size ∨
       x_max r == inject_Z k * tile_size)%Q →
      ∃ e, e ∈ out ∧ idx e = (k - 1)%Z.

(** A region whose edges are in order, possibly of no extent. *)
Definition consistent (r : region) : Prop :=
  (x_min r <= x_max r)%Q ∧ (y_min r <= y_max r)%Q.

(** Region [a] lies within region [b]. *)
Definition within (a b : region) : Prop :=
  (x_min b <= x_min a)%Q ∧ (x_max a <= x_max b)%Q ∧
  (y_min b <= y_min a)%Q ∧ (y_max a <= y_max b)%Q.

(** The same region, edge by edge, as rational numbers. *)
Definition region_eq (a b : region) : Prop :=
  (x_min a == x_min b)%Q ∧ (y_min a == y_min b)%Q ∧
  (x_max a == x_max b)%Q ∧ (y_max a == y_max b)%Q.

(** A point of the closed region. *)
Definition in_region (r : region) (p : point) : Prop :=
  (x_min r <= p.1 <= x_max r)%Q ∧ (y_min r <= p.2 <= y_max r)%Q.

(** ** Sides of the sampling grid *)

(** The four sides of the regular sampling grid, in the order of the first
    axis of [edges]. *)
Inductive side : Set := Left | Bottom | Right | Top.

Definition side_index (e : side) : nat :=
  match e with Left => 0 | Bottom => 1 | Right => 2 | Top => 3 end.

(** Vertex [v] of the flattened [n0 x n1] grid, at row [v / n1] and column
    [v mod n1], lies on side [e]. *)
Definition on_side (n0 n1 : nat) (e : side) (v : nat) : Prop :=
  match e with
  | Left => (v mod n1 = 0)%nat
  | Bottom => (v / n1 = n0 - 1)%nat
  | Right => (v mod n1 = n1 - 1)%nat
  | Top => (v / n1 = 0)%nat
  end.

(** On the outer boundary: first or last row, first or last column. *)
Definition on_boundary (n0 n1 v : nat) : Prop :=
  on_side n0 n1 Left v ∨ on_side n0 n1 Bottom v ∨
  on_side n0 n1 Right v ∨ on_side n0 n1 Top v.

(** All three vertices on side [e]. *)
Definition simplex_on_side (n0 n1 : nat) (e : side) (t : simplex) : Prop :=
  let '(a, b, c) := t in
  on_side n0 n1 e a ∧ on_side n0 n1 e b ∧ on_side n0 n1 e c.

(** All three vertices on the outer boundary, wherever on it. *)
Definition simplex_on_boundary (n0 n1 : nat) (t : simplex) : Prop :=
  let '(a, b, c) := t in
  on_boundary n0 n1 a ∧ on_boundary n0 n1 b ∧ on_boundary n0 n1 c.

(** All three vertices on one and the same side. *)
Definition simplex_on_one_side (n0 n1 : nat) (t : simplex) : Prop :=
  simplex_on_side n0 n1 Left t ∨ simplex_on_side n0 n1 Bottom t ∨
  simplex_on_side n0 n1 Right t ∨ simplex_on_side n0 n1 Top t.

(** The vertices are points of the sampling grid. *)
Definition simplex_in_grid (n0 n1 : nat) (t : simplex) : Prop :=
  let '(a, b, c) := t in
  (a < n0 * n1)%nat ∧ (b < n0 * n1)%nat ∧ (c < n0 * n1)%nat.

Global Instance on_side_dec n0 n1 e v : Decision (on_side n0 n1 e v).
Proof. destruct e; simpl; apply _. Defined.

Global Instance simplex_on_side_dec n0 n1 e t :
  Decision (simplex_on_side n0 n1 e t).
Proof. destruct t as [[a b] c]; simpl; apply _. Defined.

Global Instance simplex_on_one_side_dec n0 n1 t :
  Decision (simplex_on_one_side n0 n1 t).
Proof. unfold simplex_on_one_side; apply _. Defined.

(** The mask of pass [e]: which simplices have their three vertices on
    side [e]. *)
Definition side_mask (n0 n1 : nat) (e : side) (tri_simplices : list simplex)
  : list bool :=
  (λ t, bool_decide (simplex_on_side n0 n1 e t)) <$> tri_simplices.

(** What [tsearch] may put in the selected-simplices array: a simplex
    index, or [-1] for "not found". *)
Definition selected_in_range (tri_simplices : list simplex) (s : Z) : Prop :=
  (-1 ≤ s < Z.of_nat (length tri_simplices))%Z.

(** One pass of the loop on one entry of the selected-simplices array. *)
Definition pass (n0 n1 : nat) (tri_simplices : list simplex) (e : side)
    (s : Z) : Z :=
  match py_index (side_mask n0 n1 e tri_simplices) s with
  | Ok true => (-1)%Z
  | _ => s
  end.

(** The four passes, one per side, in the order of the loop. *)
Definition filtered (n0 n1 : nat) (tri_simplices : list simplex) (s : Z)
  : Z :=
  pass n0 n1 tri_simplices Top
    (pass n0 n1 tri_simplices Right
       (pass n0 n1 tri_simplices Bottom
          (pass n0 n1 tri_simplices Left s))).

(** At least one vertex off the outer boundary. *)
Definition has_interior_vertex (n0 n1 : nat) (t : simplex) : Prop :=
  let '(a, b, c) := t in
  ¬ on_boundary n0 n1 a ∨ ¬ on_boundary n0 n1 b ∨ ¬ on_boundary n0 n1 c.

(** The reading of C3 under which three boundary vertices are enough: every
    selected simplex whose vertices all lie on the outer boundary, on
    whichever sides, is replaced by [-1]. *)
Definition marks_boundary_simplices (n0 n1 : nat)
    (tri_simplices : list simplex) (selected : ndarray Z) : Prop :=
  ∀ out,
    filter_simplices_on_the_edges (n0, n1) tri_simplices selected = Ok out →
    ∀ (p : nat) (s : Z) (t : simplex),
      data selected !! p = Some s → (0 ≤ s)%Z →
      tri_simplices !! Z.to_nat s = Some t →
      simplex_on_boundary n0 n1 t →
      data out !! p = Some (-1)%Z.

(** ** Wrapper calls *)

(** The number of outputs a sequence of calls asks for. *)
Definition total_nout {Func Val : Type}
    (calls : list (Func * gmap string (kwarg Func Val) * Z)) : Z :=
  foldr (λ c acc, (c.2 + acc)%Z) 0%Z calls.

(** ** Strings and dumped objects *)

Fixpoint char_in (c : Ascii.ascii) (s : string) : bool :=
  match s with
  | EmptyString => false
  | String c' s' => bool_decide (c = c') || char_in c s'
  end.

Fixpoint string_forall (P : Ascii.ascii → bool) (s : string) : bool :=
  match s with
  | EmptyString => true
  | String c s' => P c && string_forall P s'
  end.

(** No character of [s] occurs in [needle]. *)
Definition disjoint_from (needle s : string) : bool :=
  string_forall (λ c, negb (char_in c needle)) s.

(** The objects [dump] writes: a [Dataset] or a [DataFrame]. *)
Definition is_tile {Dataset DataFrame Opaque : Type}
    (obj : pyobj Dataset DataFrame Opaque) : bool :=
  match obj with
  | PyDataset _ | PyDataFrame _ => true
  | _ => false
  end.

(** The reader [load] picks for the path of a tile object dumped under
    [tmp_dir]. *)
Definition reader_of {Dataset DataFrame Opaque : Type}
    (obj : pyobj Dataset DataFrame Opaque) (tmp_dir : string) : dataset_type :=
  match obj with
  | PyDataFrame _ => if str_in DENSE_NAME tmp_dir then Arrays else Points
  | _ => Arrays
  end.

(** The writer [dump_single_object] picks for a tile object. *)
Definition writer_of {Dataset DataFrame Opaque : Type}
    (obj : pyobj Dataset DataFrame Opaque) : dataset_type :=
  match obj with
  | PyDataFrame _ => Points
  | _ => Arrays
  end.

(** No string of the argument is the path of a dumped object, at any depth
    of lists. *)
Fixpoint handle_free {Dataset DataFrame Opaque : Type}
    (arg : pyobj Dataset DataFrame Opaque) : bool :=
  match arg with
  | PyList l => forallb handle_free l
  | PyStr s => negb (is_dumped_object arg)
  | _ => true
  end.

(** The name under which [create_path] files a tile object. *)
Definition tile_name {Dataset DataFrame Opaque : Type}
    (obj : pyobj Dataset DataFrame Opaque) : string :=
  match obj with
  | PyDataFrame _ => SPARSE_NAME
  | _ => DENSE_NAME
  end.

(** What a consumer can tell from an object [dump] gave back under one id:
    the path of a dumped object. *)
Definition is_handle {Dataset DataFrame Opaque : Type}
    (out : pyobj Dataset DataFrame Opaque) : Prop :=
  ∃ p, out = PyStr p ∧ is_dumped_object out = true.

(** The path [create_path] makes for a tile object. *)
Definition tile_path {Dataset DataFrame Opaque : Type}
    (obj : pyobj Dataset DataFrame Opaque) (tmp_dir : string) (id_num : Z)
  : string :=
  posix_join tmp_dir (tile_name obj +:+ "_" +:+ pretty id_num).

(** [out] is what [dump] gives back for the object [res] under the id
    [id_num]: [None] for [None], and for a tile object its path, which
    [is_dumped_object] recognises. *)
Definition dumped_as {Dataset DataFrame Opaque : Type}
    (res : pyobj Dataset DataFrame Opaque) (tmp_dir : string) (id_num : Z)
    (out : pyobj Dataset DataFrame Opaque) : Prop :=
  (res = PyNone ∧ out = PyNone) ∨
  (is_tile res = true ∧ out = PyStr (tile_path res tmp_dir id_num) ∧
   is_dumped_object out = true).

(** The contract of the tile writers and readers: what is saved under a
    path is read back from it by the reader of the same kind. *)
Definition tiles_round_trip {Dataset DataFrame Opaque Disk TileError : Type}
    (save_single_tile : dataset_type → pyobj Dataset DataFrame Opaque →
                        string → Disk → outcome TileError Disk)
    (load_single_tile : dataset_type → string → Disk →
                        outcome TileError (pyobj Dataset DataFrame Opaque))
  : Prop :=
  ∀ kind obj path disk disk',
    save_single_tile kind obj path disk = Return disk' →
    load_single_tile kind path disk' = Return obj.

(** ** Extremes of a disparity bound *)

(** Component-wise least and greatest point of a list of points. *)
Definition pt_least (p : point) (ps : list point) : Prop :=
  is_least p.1 (fst <$> ps) ∧ is_least p.2 (snd <$> ps).

Definition pt_greatest (p : point) (ps : list point) : Prop :=
  is_greatest p.1 (fst <$> ps) ∧ is_greatest p.2 (snd <$> ps).

(** The claim's account of one disparity bound at one query point, for the
    selected simplex [s] left by the filter and the nearest sample [nn]:
    with a simplex, the extremes are the component-wise least and greatest
    of its three vertex positions in the flattened sampling grid; without,
    both are the nearest sample's position. *)
Definition bound_extremes_spec (flat : list point)
    (tri_simplices : list simplex) (s nn : Z) (ext : point * point) : Prop :=
  (s ≠ (-1)%Z →
     ∃ a b c pa pb pc,
       tri_simplices !! Z.to_nat s = Some (a, b, c) ∧
       flat !! a = Some pa ∧ flat !! b = Some pb ∧ flat !! c = Some pc ∧
       pt_least ext.1 [pa; pb; pc] ∧ pt_greatest ext.2 [pa; pb; pc]) ∧
  (s = (-1)%Z →
     ∃ pn, flat !! Z.to_nat nn = Some pn ∧ ext = (pn, pn)).

(** The selected simplex of a query point once the edges are filtered. *)
Definition kept_simplex (IsGeographic : Z → bool)
    (tsearch : triangulation → point → Z)
    (epipolar_regions_grid : ndarray point) (epsg : Z)
    (tri : triangulation) (q : point) : Z :=
  filtered (shape0 epipolar_regions_grid) (shape1 epipolar_regions_grid)
    (simplices tri)
    (tsearch tri (pt_scale (if IsGeographic epsg then 1000%Q else 1%Q) q)).

(** ** Candidates of a terrain tile *)

Section RequiredTilesVocabulary.
Context {T : Type}.
Implicit Types (pc_left pc_right : CarsDataset T).
Implicit Types
  (pair : CarsDataset T * CarsDataset T * ndarray point * ndarray point).

(** The guard of the loop on the listed tiles. *)
Definition in_grid pc_left (id_y id_x : Z) : Prop :=
  (0 ≤ id_x < Z.of_nat (shape1 (tiling_grid pc_left)) ∧
   0 ≤ id_y < Z.of_nat (shape0 (tiling_grid pc_left)))%Z.

Global Instance in_grid_dec pc_left id_y id_x :
  Decision (in_grid pc_left id_y id_x).
Proof. unfold in_grid; apply _. Defined.

(** The indexes the loop on the listed tiles keeps, in order. *)
Definition kept_indexes pc_left (epipolar_tiles : list tile_entry)
  : list (Z * Z) :=
  (λ e, (idy e, idx e))
    <$> filter (λ e, in_grid pc_left (idy e) (idx e)) epipolar_tiles.

(** Dataset [ds] holds a tile at every address of the tiling grid of
    [pc_left]. *)
Definition tiles_cover pc_left (ds : CarsDataset T) : Prop :=
  ∀ id_y id_x, in_grid pc_left id_y id_x → ∃ t, ds_getitem ds id_y id_x = Ok t.

(** The indexes one stereo pair adds for terrain cell [(j, i)]. *)
Definition pair_indexes (j i : nat) pair : list (Z * Z) :=
  let '(pc_left, pc_right, epipolar_points_min, epipolar_points_max) :=
    pair in
  match pair_epipolar_region pc_left epipolar_points_min epipolar_points_max
          j i with
  | Ok (epipolar_region, largest_epipolar_region, opt_epipolar_tile_size) =>
      if empty epipolar_region then []
      else
        match list_tiles epipolar_region largest_epipolar_region
                (inject_Z opt_epipolar_tile_size)
                list_tiles_default_margin with
        | Ok epipolar_tiles => kept_indexes pc_left epipolar_tiles
        | Raise _ => []
        end
  | Raise _ => []
  end.

(** A pair the loop body can process: its attributes and bounds are there,
    its tile size is not zero, and both datasets hold a tile at every
    address of the left dataset's tiling grid. *)
Definition pair_ok (j i : nat) pair : Prop :=
  let '(pc_left, pc_right, epipolar_points_min, epipolar_points_max) :=
    pair in
  (∃ r largest ts,
     pair_epipolar_region pc_left epipolar_points_min epipolar_points_max j i
       = Ok (r, largest, ts) ∧ ts ≠ 0%Z) ∧
  tiles_cover pc_left pc_left ∧ tiles_cover pc_left pc_right.

(** Tile [(id_y, id_x)] is a candidate of a pair for terrain cell [(j, i)]:
    the pair's cropped region is not empty, the tile lies within
    [list_tiles]'s default margin of it, its crop to the pair's largest
    region is not empty and its address is one of the pair's tiling grid. *)
Definition pair_candidate (j i : nat) pair (id_y id_x : Z) : Prop :=
  ∃ r largest ts,
    pair_epipolar_region pair.1.1.1 pair.1.2 pair.2 j i
      = Ok (r, largest, ts) ∧
    empty r = false ∧
    tile_in_range r (inject_Z ts) list_tiles_default_margin id_x id_y ∧
    empty (crop (tile_box (inject_Z ts) id_x id_y) largest) = false ∧
    in_grid pair.1.1.1 id_y id_x.

(** The tile size a pair announces, when its attributes can be read, is
    positive. *)
Definition pair_tile_size_positive (j i : nat) pair : Prop :=
  ∀ r largest ts,
    pair_epipolar_region pair.1.1.1 pair.1.2 pair.2 j i
      = Ok (r, largest, ts) → (0 < ts)%Z.

(** The reading of C1 with no margin: every returned index is the address
    of a tile whose box shares an interior point with the cropped epipolar
    region of one of the pairs. *)
Definition no_margin_ring (terrain_grid : ndarray point) (row col : nat)
    (lefts rights : list (CarsDataset T)) (mins maxs : list (ndarray point))
  : Prop :=
  ∀ tr l r rank idxs,
    get_corresponding_tiles_row_col terrain_grid row col lefts rights
      mins maxs = Ok (tr, l, r, rank, idxs) →
    ∀ id_y id_x, (id_y, id_x) ∈ idxs →
      ∃ pair reg largest ts,
        pair ∈ zip4 lefts rights mins maxs ∧
        pair_epipolar_region pair.1.1.1 pair.1.2 pair.2 row col
          = Ok (reg, largest, ts) ∧
        overlaps (tile_box (inject_Z ts) id_x id_y) reg.

(** The three lists move together: entry [k] of the left and of the right
    list are the tiles that a pair of [pairs] holds, in its left and in its
    right dataset, at the address that is entry [k] of the index list. *)
Definition aligned (pairs : list _) (acc : required T) : Prop :=
  length (required_point_clouds_left acc) = length (list_indexes acc) ∧
  length (required_point_clouds_right acc) = length (list_indexes acc) ∧
  Forall (λ '(id, cloud_left, cloud_right),
            ∃ pair, pair ∈ pairs ∧
              in_grid pair.1.1.1 id.1 id.2 ∧
              ds_getitem pair.1.1.1 id.1 id.2 = Ok cloud_left ∧
              ds_getitem pair.1.1.2 id.1 id.2 = Ok cloud_right)
    (zip (zip (list_indexes acc) (required_point_clouds_left acc))
         (required_point_clouds_right acc)).
End RequiredTilesVocabulary.

(** ** Worked examples *)

(** The eight triangles of a regular 3 x 3 grid, vertices numbered row by
    row from 0 to 8, vertex 4 in the middle. *)
Definition grid3_simplices : list simplex :=
  [(0, 1, 3); (1, 4, 3); (1, 2, 5); (1, 5, 4);
   (3, 4, 6); (4, 7, 6); (4, 5, 7); (5, 8, 7)]%nat.

Definition example_dataset : CarsDataset (Z * Z) :=
  {| attributes :=
       <["largest_epipolar_region" := AttrRegion (Region 0 0 100 100)]>
         (<["opt_epipolar_tile_size" := AttrInt 10]> ∅);
     tiling_grid := NdArray 10 10 (replicate 100 (0, 0, 0, 0)%Q);
     tiles := (λ y, (λ x, (y, x)) <$> zrange 0 10) <$> zrange 0 10 |}.

Definition example_terrain_grid : ndarray point :=
  NdArray 2 2 [(0, 0); (50, 0); (0, 50); (50, 50)]%Q.

(** Bounds that put the terrain cell inside epipolar tile [(1, 1)]. *)
Definition example_points_inside : ndarray point :=
  NdArray 2 2 [(12, 12); (18, 12); (12, 18); (18, 18)]%Q.

(** Bounds that put the terrain cell beyond the largest epipolar region. *)
Definition example_points_outside : ndarray point :=
  NdArray 2 2 [(200, 200); (210, 200); (200, 210); (210, 210)]%Q.

(** A 2 x 2 sampling grid triangulated in two triangles, with point
    location that finds triangle 0 for points of non-negative abscissa and
    nothing otherwise, and sample 0 as the nearest neighbour. *)
Definition example_sampling_grid : ndarray point :=
  NdArray 2 2 [(0, 0); (10, 0); (0, 10); (10, 10)]%Q.

Definition example_Delaunay (points : list point) : result triangulation :=
  Ok (Triangulation points [(0, 1, 2); (1, 3, 2)]%nat).

Definition example_tsearch (tri : triangulation) (q : point) : Z :=
  if Qle_bool 0 q.1 then 0%Z else (-1)%Z.

Definition example_query (sample : list point) (q : point) : Z := 0%Z.

(** Three calls on one wrapper, asking for two, no and three outputs. *)
Definition example_path_join (a b : string) : string := a +:+ "/" +:+ b.

Definition example_calls : list (unit * gmap string (kwarg unit unit) * Z) :=
  [(tt, ∅, 2%Z); (tt, {["x" := KwVal tt]}, 0%Z); (tt, ∅, 3%Z)].

(** A file system that keeps, under each path, the last object saved there
    and its kind; a path is read back by the reader of that kind only. *)
Definition example_load_single_tile (kind : dataset_type) (path : string)
    (disk : gmap string (dataset_type * pyobj unit unit unit))
  : outcome unit (pyobj unit unit unit) :=
  match disk !! path with
  | Some (saved_kind, obj) =>
      if decide (saved_kind = kind) then Return obj else Raises (Tile tt)
  | None => Raises (Tile tt)
  end.

Definition example_save_single_tile (kind : dataset_type)
    (obj : pyobj unit unit unit) (path : string)
    (disk : gmap string (dataset_type * pyobj unit unit unit))
  : outcome unit (gmap string (dataset_type * pyobj unit unit unit)) :=
  Return (<[path := (kind, obj)]> disk).

Definition example_foreign_getitem (obj : pyobj unit unit unit) (i : nat)
  : outcome unit (pyobj unit unit unit) :=
  Raises (Builtin KeyError).

(** A task result with three outputs, the second one [None], and the disk
    once the result is dumped under the ids 4, 5 and 6. *)
Definition example_results : pyobj unit unit unit :=
  PyTuple [PyDataset tt; PyNone; PyDataFrame tt].

Definition example_dumped : gmap string (dataset_type * pyobj unit unit unit) :=
  {["out/tmp/DenseDO_4" := (Arrays, PyDataset tt);
    "out/tmp/SparseDO_6" := (Points, PyDataFrame tt)]}.

(** * Properties *)

(** ** Rational arithmetic helpers *)

(** Brings the defining cases of every [Qmin] and [Qmax] of the goal and
    the hypotheses into the context, for [lra]. *)
Ltac q_minmax :=
  repeat match goal with
    | |- context [Qmin ?a ?b] =>
        lazymatch goal with
        | _ : Qmin a b == a |- _ => fail
        | _ : Qmin a b == b |- _ => fail
        | _ => destruct (Q.min_spec a b) as [[? ?] | [? ?]]
        end
    | |- context [Qmax ?a ?b] =>
        lazymatch goal with
        | _ : Qmax a b == a |- _ => fail
        | _ : Qmax a b == b |- _ => fail
        | _ => destruct (Q.max_spec a b) as [[? ?] | [? ?]]
        end
    end.

Lemma empty_true (r : region) :
  empty r = true ↔ (x_max r <= x_min r)%Q ∨ (y_max r <= y_min r)%Q.
Proof.
  unfold empty. rewrite orb_true_iff, !Qle_bool_iff. tauto.
Qed.

Lemma empty_false (r : region) :
  empty r = false ↔ (x_min r < x_max r)%Q ∧ (y_min r < y_max r)%Q.
Proof.
  unfold empty. rewrite orb_false_iff.
  rewrite <- !not_true_iff_false, !Qle_bool_iff.
  split; intros [Hx Hy]; split;
    first [ apply Qnot_le_lt; assumption | apply Qlt_not_le; assumption ].
Qed.

(** ** Cropping *)

(** C8: cropping a region that is separated from the bounding region along
    the x axis or along the y axis yields a region that [empty] classifies
    as empty. *)
Theorem crop_outside_empty (r b : region) :
  separated r b → empty (crop r b) = true.
Proof.
  intros Hsep. apply empty_true. unfold crop; simpl.
  destruct Hsep as [H | [H | [H | H]]]; [left | left | right | right];
    q_minmax; lra.
Qed.

Lemma crop_outside_empty_witness :
  empty (crop (Region 0 0 10 10) (Region 20 0 30 10)) = true.
Proof.
  apply crop_outside_empty. unfold separated; simpl. left; lra.
Defined.

(** A crop that is not empty has a point strictly inside both regions, so
    regions without a common interior point always crop to an empty one. *)
Lemma crop_no_common_interior_empty (r b : region) :
  (∀ p, ¬ (interior r p ∧ interior b p)) → empty (crop r b) = true.
Proof.
  intros Hno. destruct (empty (crop r b)) eqn:He; [reflexivity | exfalso].
  apply empty_false in He. destruct He as [Hx Hy].
  set (c := crop r b) in *.
  apply (Hno ((x_min c + x_max c) * (1 # 2), (y_min c + y_max c) * (1 # 2))%Q).
  unfold interior. subst c. unfold crop in *.
  cbn [fst snd x_min x_max y_min y_max] in *.
  revert Hx Hy. q_minmax; intros; repeat split; lra.
Qed.

(** ** Union *)

Lemma foldl_Qmin_least (l : list Q) (x : Q) :
  is_least (foldl Qmin x l) (x :: l).
Proof.
  revert x. induction l as [| y l IH]; intros x; simpl.
  - split; [left | constructor; [lra | constructor]].
  - destruct (IH (Qmin x y)) as [Hin Hall].
    inversion Hall as [| ? ? Hhd Htl]; subst.
    split.
    + apply elem_of_cons in Hin as [-> | Hin].
      * unfold Qmin, GenericMinMax.gmin.
        destruct (x ?= y)%Q; [left | left | right; left].
      * right; right; exact Hin.
    + revert Hhd. q_minmax; intros; repeat constructor; try lra; exact Htl.
Qed.

Lemma foldl_Qmax_greatest (l : list Q) (x : Q) :
  is_greatest (foldl Qmax x l) (x :: l).
Proof.
  revert x. induction l as [| y l IH]; intros x; simpl.
  - split; [left | constructor; [lra | constructor]].
  - destruct (IH (Qmax x y)) as [Hin Hall].
    inversion Hall as [| ? ? Hhd Htl]; subst.
    split.
    + apply elem_of_cons in Hin as [-> | Hin].
      * unfold Qmax, GenericMinMax.gmax.
        destruct (x ?= y)%Q; [left | right; left | left].
      * right; right; exact Hin.
    + revert Hhd. q_minmax; intros; repeat constructor; try lra; exact Htl.
Qed.

(** C7: on a non-empty list [union] returns the least [xmin], the least
    [ymin], the greatest [xmax] and the greatest [ymax] of its regions, in
    that order; on the empty list it fails, with the [ValueError] of
    Python's [min] (the failure the specification calls EmptyInputError). *)
Theorem union_spec :
  union [] = Raise ValueError ∧
  ∀ (r : region) (rs : list region),
    ∃ x0 y0 x1 y1,
      union (r :: rs) = Ok (x0, y0, x1, y1) ∧
      is_least x0 (x_min <$> r :: rs) ∧
      is_least y0 (y_min <$> r :: rs) ∧
      is_greatest x1 (x_max <$> r :: rs) ∧
      is_greatest y1 (y_max <$> r :: rs).
Proof.
  split; [reflexivity |].
  intros r rs. do 4 eexists. split; [reflexivity |].
  repeat split; first [ apply foldl_Qmin_least | apply foldl_Qmax_greatest ].
Qed.

(** ** Loops *)

(** Invariant rule for a counted loop whose body never raises while the
    invariant holds. *)
Lemma for_each_seq_inv {St : Type} (body : St → nat → result St)
    (P : nat → St → Prop) (n a : nat) (s : St) :
  P a s →
  (∀ k s, (a ≤ k < a + n)%nat → P k s → ∃ s', body s k = Ok s' ∧ P (S k) s') →
  ∃ s', for_each body (seq a n) s = Ok s' ∧ P (a + n)%nat s'.
Proof.
  revert a s. induction n as [| n IH]; intros a s HP Hstep; simpl.
  - exists s. rewrite Nat.add_0_r. auto.
  - destruct (Hstep a s ltac:(lia) HP) as (s1 & -> & HP1). simpl.
    destruct (IH (S a) s1 HP1) as (s2 & Hrun & HP2).
    + intros k s' Hk. apply Hstep. lia.
    + exists s2. split; [exact Hrun |].
      replace (a + S n)%nat with (S a + n)%nat by lia. exact HP2.
Qed.

Lemma for_each_app {A St : Type} (body : St → A → result St)
    (xs ys : list A) (s : St) :
  for_each body (xs ++ ys) s = s' ← for_each body xs s; for_each body ys s'.
Proof.
  revert s. induction xs as [| x xs IH]; intros s; simpl; [reflexivity |].
  destruct (body s x); simpl; auto.
Qed.

(** ** The grid of corners *)

Lemma Qeq_bool_false_pos (x : Q) : (0 < x)%Q → Qeq_bool x 0 = false.
Proof.
  intros Hx. destruct (Qeq_bool x 0) eqn:E; [| reflexivity].
  apply Qeq_bool_iff in E. lra.
Qed.

Lemma Qceiling_div_nonneg (a b : Q) :
  (0 <= a)%Q → (0 < b)%Q → (0 ≤ Qceiling (a / b))%Z.
Proof.
  intros Ha Hb. change 0%Z with (Qceiling 0).
  apply Qceiling_resp_le. apply Qle_shift_div_l; [exact Hb | lra].
Qed.

Lemma flat_index_inj (n1 j i j' i' : nat) :
  (i < n1)%nat → (i' < n1)%nat →
  (j * n1 + i = j' * n1 + i')%nat → j = j' ∧ i = i'.
Proof.
  intros Hi Hi' Heq.
  assert (j = j') as ->; [| lia].
  destruct (Nat.lt_trichotomy j j') as [Hlt | [-> | Hlt]]; [| reflexivity |].
  - pose proof (Nat.mul_le_mono_r (S j) j' n1 ltac:(lia)). lia.
  - pose proof (Nat.mul_le_mono_r (S j') j n1 ltac:(lia)). lia.
Qed.

Section GridLoops.
Variables (xmin ymin xmax ymax xsplit ysplit : Q).
Variables (n0 n1 : nat).

Let corner := grid_corner xmin ymin xmax ymax xsplit ysplit.

Let inner_body (i : nat) (out_grid : ndarray point) (j : nat) :=
  out_grid ← setitem out_grid j i
    (λ p, (Qmin xmax (xmin + inject_Z (Z.of_nat i) * xsplit), p.2));
  setitem out_grid j i
    (λ p, (p.1, Qmin ymax (ymin + inject_Z (Z.of_nat j) * ysplit))).

(** Columns before [i] are written, and so are the first [j] rows of
    column [i]. *)
Let written (i j : nat) (g : ndarray point) : Prop :=
  shape0 g = n0 ∧ shape1 g = n1 ∧ length (data g) = (n0 * n1)%nat ∧
  (∀ j' i', (j' < n0)%nat → (i' < i)%nat →
     data g !! (j' * n1 + i')%nat = Some (corner j' i')) ∧
  (∀ j', (j' < j)%nat → data g !! (j' * n1 + i)%nat = Some (corner j' i)).

Lemma inner_body_written (i j : nat) (g : ndarray point) :
  (i < n1)%nat → (j < n0)%nat → written i j g →
  ∃ g', inner_body i g j = Ok g' ∧ written i (S j) g'.
Proof using Type.
  intros Hi Hj (Hs0 & Hs1 & Hlen & Hcols & Hrows).
  unfold inner_body, setitem. simpl.
  rewrite bool_decide_eq_true_2 by lia. simpl.
  rewrite bool_decide_eq_true_2 by lia.
  eexists. split; [reflexivity |].
  rewrite Hs1. unfold written; simpl.
  rewrite !length_alter. repeat split; try assumption.
  - intros j' i' Hj' Hi'.
    rewrite !list_lookup_alter_ne; [auto | |];
      intros Heq; apply flat_index_inj in Heq; lia.
  - intros j' Hj'. destruct (decide (j' = j)) as [-> | Hne].
    + rewrite !list_lookup_alter_eq.
      destruct (lookup_lt_is_Some_2 (data g) (j * n1 + i)%nat) as [p ->];
        [nia | reflexivity].
    + rewrite !list_lookup_alter_ne; [apply Hrows; lia | |];
        intros Heq; apply flat_index_inj in Heq; lia.
Qed.

Lemma inner_loop_written (i : nat) (g : ndarray point) :
  (i < n1)%nat → written i 0 g →
  ∃ g', for_each (inner_body i) (seq 0 n0) g = Ok g' ∧ written (S i) 0 g'.
Proof using Type.
  intros Hi Hg.
  destruct (for_each_seq_inv (inner_body i) (written i) n0 0 g Hg)
    as (g' & Hrun & Hg').
  - intros k s Hk. apply inner_body_written; [exact Hi | lia].
  - exists g'. split; [exact Hrun |].
    destruct Hg' as (Hs0 & Hs1 & Hlen & Hcols & Hrows).
    repeat split; try assumption; [| intros; lia].
    intros j' i' Hj' Hi'. destruct (decide (i' = i)) as [-> | Hne].
    + apply Hrows. simpl. exact Hj'.
    + apply Hcols; [exact Hj' | lia].
Qed.

Lemma grid_loops_written (g : ndarray point) :
  shape0 g = n0 → shape1 g = n1 → length (data g) = (n0 * n1)%nat →
  ∃ g', for_each (λ out_grid i,
                    for_each (inner_body i) (seq 0 n0) out_grid)
          (seq 0 n1) g = Ok g' ∧ written n1 0 g'.
Proof using Type.
  intros Hs0 Hs1 Hlen.
  apply (for_each_seq_inv _ (λ i, written i 0) n1 0 g).
  - repeat split; try assumption; intros; lia.
  - intros k s Hk. apply inner_loop_written. lia.
Qed.
End GridLoops.

(** Border cells are shrunk, never enlarged: from one column of corners to
    the next the abscissa grows by at most the step, and never decreases;
    likewise from one row to the next. *)
Lemma grid_corner_step (xmin ymin xmax ymax xsplit ysplit : Q) (j i : nat) :
  (0 < xsplit)%Q → (0 < ysplit)%Q →
  let c := grid_corner xmin ymin xmax ymax xsplit ysplit j i in
  let right := grid_corner xmin ymin xmax ymax xsplit ysplit j (S i) in
  let below := grid_corner xmin ymin xmax ymax xsplit ysplit (S j) i in
  (0 <= right.1 - c.1 <= xsplit)%Q ∧ (0 <= below.2 - c.2 <= ysplit)%Q.
Proof.
  intros Hxs Hys. unfold grid_corner. cbn [fst snd].
  rewrite !Nat2Z.inj_succ. unfold Z.succ. rewrite !inject_Z_plus.
  change (inject_Z 1) with 1%Q.
  q_minmax; repeat split; lra.
Qed.

(** C5: for [xmin <= xmax], [ymin <= ymax] and positive steps, [grid]
    returns an array of [ceil((ymax-ymin)/ysplit)+1] rows and
    [ceil((xmax-xmin)/xsplit)+1] columns whose corner [[j, i]] is
    [(min(xmax, xmin + i*xsplit), min(ymax, ymin + j*ysplit))]; every corner
    lies in the bounding box and never beyond its place in the regular
    lattice. *)
Theorem grid_spec (uninit : nat → point)
    (xmin ymin xmax ymax xsplit ysplit : Q) :
  (xmin <= xmax)%Q → (ymin <= ymax)%Q → (0 < xsplit)%Q → (0 < ysplit)%Q →
  ∃ out_grid,
    grid uninit xmin ymin xmax ymax xsplit ysplit = Ok out_grid ∧
    Z.of_nat (shape0 out_grid) = (Qceiling ((ymax - ymin) / ysplit) + 1)%Z ∧
    Z.of_nat (shape1 out_grid) = (Qceiling ((xmax - xmin) / xsplit) + 1)%Z ∧
    ∀ j i, (j < shape0 out_grid)%nat → (i < shape1 out_grid)%nat →
      ∃ corner,
        getitem out_grid j i = Ok corner ∧
        corner = (Qmin xmax (xmin + inject_Z (Z.of_nat i) * xsplit),
                  Qmin ymax (ymin + inject_Z (Z.of_nat j) * ysplit)) ∧
        (xmin <= corner.1 <= xmax)%Q ∧ (ymin <= corner.2 <= ymax)%Q ∧
        (corner.1 <= xmin + inject_Z (Z.of_nat i) * xsplit)%Q ∧
        (corner.2 <= ymin + inject_Z (Z.of_nat j) * ysplit)%Q.
Proof.
  intros Hx Hy Hxs Hys. unfold grid.
  rewrite !Qeq_bool_false_pos by assumption.
  pose proof (Qceiling_div_nonneg (xmax - xmin) xsplit ltac:(lra) Hxs) as Hnx.
  pose proof (Qceiling_div_nonneg (ymax - ymin) ysplit ltac:(lra) Hys) as Hny.
  set (nbx := Qceiling ((xmax - xmin) / xsplit)) in *.
  set (nby := Qceiling ((ymax - ymin) / ysplit)) in *.
  unfold np_ndarray. rewrite bool_decide_eq_false_2 by lia. simpl.
  set (n0 := Z.to_nat (nby + 1)). set (n1 := Z.to_nat (nbx + 1)).
  destruct (grid_loops_written xmin ymin xmax ymax xsplit ysplit n0 n1
              (NdArray n0 n1 (uninit <$> seq 0 (n0 * n1))))
    as (g & Hrun & Hs0 & Hs1 & Hlen & Hcells & _);
    [reflexivity | reflexivity | simpl; by rewrite length_fmap, length_seq |].
  exists g. split; [exact Hrun |].
  split; [rewrite Hs0; subst n0; lia |].
  split; [rewrite Hs1; subst n1; lia |].
  intros j i Hj Hi. eexists. split; [| split; [reflexivity |]].
  - unfold getitem. rewrite bool_decide_eq_true_2 by lia.
    rewrite Hs1, Hcells by lia. reflexivity.
  - assert (0 <= inject_Z (Z.of_nat i))%Q as Hi0
        by (rewrite <- (Zle_Qle 0); lia).
    assert (0 <= inject_Z (Z.of_nat j))%Q as Hj0
        by (rewrite <- (Zle_Qle 0); lia).
    pose proof (Qmult_le_0_compat _ _ Hi0 (Qlt_le_weak _ _ Hxs)).
    pose proof (Qmult_le_0_compat _ _ Hj0 (Qlt_le_weak _ _ Hys)).
    simpl. q_minmax; repeat split; lra.
Qed.

Lemma grid_spec_witness :
  ∃ out_grid,
    grid (λ _, (0, 0)%Q) 0 0 5 4 2 2 = Ok out_grid ∧
    getitem out_grid 2 3 = Ok (5, 4)%Q.
Proof.
  destruct (grid_spec (λ _, (0, 0)%Q) 0 0 5 4 2 2) as (g & Hg & _);
    [lra | lra | lra | lra |].
  exists g. split; [exact Hg |].
  vm_compute in Hg. injection Hg as <-. reflexivity.
Defined.

(** ** Listing tiles *)

Lemma elem_of_zrange (k lo hi : Z) : k ∈ zrange lo hi ↔ (lo ≤ k < hi)%Z.
Proof.
  unfold zrange. rewrite list_elem_of_fmap. split.
  - intros (n & -> & Hn). apply elem_of_seq in Hn. lia.
  - intros Hk. exists (Z.to_nat (k - lo)). split; [lia |].
    apply elem_of_seq. lia.
Qed.

Lemma NoDup_zrange (lo hi : Z) : NoDup (zrange lo hi).
Proof.
  unfold zrange. apply NoDup_fmap_2; [| apply NoDup_seq].
  intros x y Hxy. lia.
Qed.

Lemma Qdiv_mult_cancel (a ts : Q) : (0 < ts)%Q → (a / ts * ts == a)%Q.
Proof. intros Hts. field. intros H0. lra. Qed.

(** [floor(a / ts) <= k] says that [a] lies before the end of tile [k]. *)
Lemma Qfloor_div_le_iff (a ts : Q) (k : Z) :
  (0 < ts)%Q → (Qfloor (a / ts) ≤ k)%Z ↔ (a < inject_Z (k + 1) * ts)%Q.
Proof.
  intros Hts. pose proof (Qdiv_mult_cancel a ts Hts) as Hq.
  set (q := (a / ts)%Q) in *. split.
  - intros Hk. pose proof (Qlt_floor q) as Hfl.
    assert (inject_Z (Qfloor q + 1) <= inject_Z (k + 1))%Q as Hle
        by (rewrite <- Zle_Qle; lia).
    rewrite <- Hq. apply Qmult_lt_compat_r; [exact Hts | lra].
  - intros Ha. rewrite <- Hq in Ha. apply Qmult_lt_r in Ha; [| exact Hts].
    pose proof (Qfloor_le q) as Hfl.
    assert (inject_Z (Qfloor q) < inject_Z (k + 1))%Q as Hlt by lra.
    rewrite <- Zlt_Qlt in Hlt. lia.
Qed.

(** [k < ceil(b / ts)] says that [b] lies after the start of tile [k]. *)
Lemma Qceiling_div_gt_iff (b ts : Q) (k : Z) :
  (0 < ts)%Q → (k < Qceiling (b / ts))%Z ↔ (inject_Z k * ts < b)%Q.
Proof.
  intros Hts. pose proof (Qdiv_mult_cancel b ts Hts) as Hq.
  set (q := (b / ts)%Q) in *. split.
  - intros Hk. pose proof (Qceiling_lt q) as Hce.
    assert (inject_Z k <= inject_Z (Qceiling q - 1))%Q as Hle
        by (rewrite <- Zle_Qle; lia).
    rewrite <- Hq. apply Qmult_lt_compat_r; [exact Hts | lra].
  - intros Hb. rewrite <- Hq in Hb. apply Qmult_lt_r in Hb; [| exact Hts].
    pose proof (Qle_ceiling q) as Hce.
    assert (inject_Z k < inject_Z (Qceiling q))%Q as Hlt by lra.
    rewrite <- Zlt_Qlt in Hlt. exact Hlt.
Qed.

(** What [list_tiles] returns for a positive tile size and any margin. *)
Lemma list_tiles_elem (r largest_region : region) (tile_size : Q)
    (margin : Z) :
  (0 < tile_size)%Q →
  ∃ out,
    list_tiles r largest_region tile_size margin = Ok out ∧
    ∀ e, e ∈ out ↔
      tile_in_range r tile_size margin (idx e) (idy e) ∧
      tile e = crop (tile_box tile_size (idx e) (idy e)) largest_region ∧
      empty (tile e) = false.
Proof.
  intros Hts. unfold list_tiles. rewrite Qeq_bool_false_pos by exact Hts.
  eexists. split; [reflexivity |]. intros e.
  rewrite list_elem_of_bind. unfold list_tiles_column, tile_in_range.
  setoid_rewrite list_elem_of_omap. setoid_rewrite elem_of_zrange.
  rewrite <- !(Qfloor_div_le_iff _ tile_size), <- !(Qceiling_div_gt_iff _ tile_size)
    by exact Hts.
  split.
  - intros (tx & (ty & Hy & He) & Hx).
    destruct (empty (crop (tile_box tile_size tx ty) largest_region)) eqn:Hemp;
      [discriminate |].
    injection He as <-. cbn [idx idy tile]. rewrite Hemp.
    repeat split; try reflexivity; lia.
  - intros ((Hx0 & Hx1 & Hy0 & Hy1) & Htile & Hemp).
    exists (idx e). split; [| lia]. exists (idy e). split; [lia |].
    rewrite <- Htile, Hemp. destruct e; reflexivity.
Qed.

Lemma overlaps_iff (a b : region) :
  empty a = false → empty b = false →
  overlaps a b ↔
    (x_min a < x_max b)%Q ∧ (x_min b < x_max a)%Q ∧
    (y_min a < y_max b)%Q ∧ (y_min b < y_max a)%Q.
Proof.
  intros Ha Hb. apply empty_false in Ha, Hb. unfold overlaps, interior.
  split.
  - intros ([px py] & Hpa & Hpb). simpl in *. repeat split; lra.
  - intros (Hx0 & Hx1 & Hy0 & Hy1).
    exists ((Qmax (x_min a) (x_min b) + Qmin (x_max a) (x_max b)) * (1 # 2),
            (Qmax (y_min a) (y_min b) + Qmin (y_max a) (y_max b)) * (1 # 2))%Q.
    cbn [fst snd]. q_minmax; repeat split; lra.
Qed.

Lemma tile_box_not_empty (tile_size : Q) (tx ty : Z) :
  (0 < tile_size)%Q → empty (tile_box tile_size tx ty) = false.
Proof.
  intros Hts. apply empty_false. unfold tile_box; cbn [x_min x_max y_min y_max].
  rewrite !inject_Z_plus. change (inject_Z 1) with 1%Q. split; lra.
Qed.

Lemma tile_in_range_overlaps (r : region) (tile_size : Q) (tx ty : Z) :
  (0 < tile_size)%Q → empty r = false →
  tile_in_range r tile_size 0 tx ty ↔ overlaps (tile_box tile_size tx ty) r.
Proof.
  intros Hts Hr.
  rewrite overlaps_iff by (try apply tile_box_not_empty; assumption).
  unfold tile_in_range, tile_box; cbn [x_min x_max y_min y_max].
  rewrite !Z.add_0_r, !Z.sub_0_r. tauto.
Qed.

(** C6, as stated, fails: tiles of size 10 and the region
    [[10, 10, 20, 20]] inside [[0, 0, 100, 100]]. The left edge of the
    region lies on the boundary between columns 0 and 1, yet only tile
    [(1, 1)] is returned: column 0, the lower-index one, is not. *)
Lemma list_tiles_tie_break_counterexample :
  list_tiles (Region 10 10 20 20) (Region 0 0 100 100) 10 0
    = Ok [TileEntry 1 1 (Region 10 10 20 20)] ∧
  ¬ lower_index_tie_break (Region 10 10 20 20) (Region 0 0 100 100) 10.
Proof.
  split; [vm_compute; reflexivity |].
  intros Hclaim.
  destruct (Hclaim [TileEntry 1 1 (Region 10 10 20 20)]
              ltac:(vm_compute; reflexivity) 1%Z) as (e & He & Hidx).
  - left. reflexivity.
  - apply list_elem_of_singleton in He. subst e. discriminate Hidx.
Qed.

(** C6, amended: for a non-empty region and a positive tile size,
    [list_tiles] with [margin = 0] returns exactly the tiles whose box shares
    an interior point with the region and whose crop to [largest_region] is
    not empty, each with that crop. A region edge lying on a tile boundary
    adds no tile: no returned tile starts at or after a max edge, none ends
    at or before a min edge. *)
Theorem list_tiles_margin0_spec (r largest_region : region) (tile_size : Q) :
  (0 < tile_size)%Q → empty r = false →
  ∃ out,
    list_tiles r largest_region tile_size 0 = Ok out ∧
    (∀ e, e ∈ out ↔
       overlaps (tile_box tile_size (idx e) (idy e)) r ∧
       tile e = crop (tile_box tile_size (idx e) (idy e)) largest_region ∧
       empty (tile e) = false) ∧
    (∀ e (k : Z), e ∈ out →
       ((x_max r == inject_Z k * tile_size)%Q → (idx e < k)%Z) ∧
       ((x_min r == inject_Z k * tile_size)%Q → (k ≤ idx e)%Z) ∧
       ((y_max r == inject_Z k * tile_size)%Q → (idy e < k)%Z) ∧
       ((y_min r == inject_Z k * tile_size)%Q → (k ≤ idy e)%Z)).
Proof.
  intros Hts Hr.
  destruct (list_tiles_elem r largest_region tile_size 0 Hts)
    as (out & Hout & Hspec).
  exists out. split; [exact Hout |]. split.
  - intros e. rewrite Hspec, tile_in_range_overlaps by assumption. tauto.
  - intros e k He. apply Hspec in He as ((Hx0 & Hx1 & Hy0 & Hy1) & _).
    rewrite !Z.add_0_r, !Z.sub_0_r in *.
    repeat split; intros Hedge; rewrite Hedge in *.
    + apply Qmult_lt_r in Hx1; [| exact Hts].
      rewrite <- Zlt_Qlt in Hx1. exact Hx1.
    + apply Qmult_lt_r in Hx0; [| exact Hts].
      rewrite <- Zlt_Qlt in Hx0. lia.
    + apply Qmult_lt_r in Hy1; [| exact Hts].
      rewrite <- Zlt_Qlt in Hy1. exact Hy1.
    + apply Qmult_lt_r in Hy0; [| exact Hts].
      rewrite <- Zlt_Qlt in Hy0. lia.
Qed.

Lemma list_tiles_margin0_spec_witness :
  ∃ out,
    list_tiles (Region 5 5 20 12) (Region 0 0 100 100) 10 0 = Ok out ∧
    length out = 4%nat.
Proof.
  destruct (list_tiles_margin0_spec (Region 5 5 20 12) (Region 0 0 100 100)
              10) as (out & Hout & _); [lra | reflexivity |].
  exists out. split; [exact Hout |].
  vm_compute in Hout. injection Hout as <-. reflexivity.
Defined.

(** ** Indexing and mapping in the result monad *)

Lemma py_index_nat {A} (l : list A) (n : nat) (x : A) :
  l !! n = Some x → py_index l (Z.of_nat n) = Ok x.
Proof.
  intros Hl. pose proof (lookup_lt_Some _ _ _ Hl) as Hlt. unfold py_index.
  rewrite (bool_decide_eq_false_2 (Z.of_nat n < 0)%Z) by lia.
  rewrite bool_decide_eq_true_2 by lia.
  rewrite Nat2Z.id, Hl. reflexivity.
Qed.

Lemma py_index_nonneg {A} (l : list A) (i : Z) (x : A) :
  (0 ≤ i)%Z → l !! Z.to_nat i = Some x → py_index l i = Ok x.
Proof.
  intros Hi Hl. rewrite <- (Z2Nat.id i Hi). apply py_index_nat. exact Hl.
Qed.

(** Index [-1] reads the last element. *)
Lemma py_index_minus_one {A} (l : list A) (x : A) :
  last l = Some x → py_index l (-1) = Ok x.
Proof.
  intros Hl. rewrite last_lookup in Hl.
  pose proof (lookup_lt_Some _ _ _ Hl) as Hlt. unfold py_index.
  rewrite (bool_decide_eq_true_2 (-1 < 0)%Z) by lia.
  rewrite bool_decide_eq_true_2 by lia.
  replace (Z.to_nat (-1 + Z.of_nat (length l))) with (pred (length l)) by lia.
  rewrite Hl. reflexivity.
Qed.

Lemma py_index_in_range {A} (l : list A) (i : Z) :
  (- Z.of_nat (length l) ≤ i < Z.of_nat (length l))%Z →
  ∃ x, py_index l i = Ok x.
Proof.
  intros Hi. unfold py_index.
  set (k := if bool_decide (i < 0)%Z then _ else _).
  assert (0 ≤ k < Z.of_nat (length l))%Z as Hk
      by (subst k; case_bool_decide; lia).
  rewrite bool_decide_eq_true_2 by exact Hk.
  destruct (lookup_lt_is_Some_2 l (Z.to_nat k)) as [x ->]; [lia |].
  exists x. reflexivity.
Qed.

Lemma py_index_elem {A} (l : list A) (i : Z) (x : A) :
  py_index l i = Ok x → x ∈ l.
Proof.
  unfold py_index. case_bool_decide; [| discriminate].
  destruct (l !! _) as [y |] eqn:Hy; [| discriminate].
  intros [= <-]. eapply list_elem_of_lookup_2. exact Hy.
Qed.

Lemma mapM_Ok {A B} (f : A → result B) (g : A → B) (l : list A) :
  Forall (λ x, f x = Ok (g x)) l → mapM f l = Ok (g <$> l).
Proof.
  induction 1 as [| x l Hx _ IH]; [reflexivity |].
  cbn. rewrite Hx. cbn. unfold fmap in IH. rewrite IH. reflexivity.
Qed.

Lemma lookup_bind_rows {A} (f : nat → list A) (n1 a n0 j i : nat) :
  (∀ r, length (f r) = n1) → (j < n0)%nat → (i < n1)%nat →
  (seq a n0 ≫= f) !! (j * n1 + i)%nat = f (a + j)%nat !! i.
Proof.
  intros Hlen. revert a j. induction n0 as [| n0 IH]; intros a j Hj Hi;
    [lia |].
  cbn [seq]. rewrite bind_cons. destruct j as [| j].
  - rewrite lookup_app_l by (rewrite Hlen; lia).
    rewrite Nat.add_0_r. reflexivity.
  - rewrite lookup_app_r by (rewrite Hlen; lia).
    rewrite Hlen. replace (S j * n1 + i - n1)%nat with (j * n1 + i)%nat by lia.
    rewrite IH by lia. f_equal. f_equal. lia.
Qed.

Lemma length_bind_rows {A} (f : nat → list A) (n1 a n0 : nat) :
  (∀ r, length (f r) = n1) → length (seq a n0 ≫= f) = (n0 * n1)%nat.
Proof.
  intros Hlen. revert a. induction n0 as [| n0 IH]; intros a; [reflexivity |].
  cbn [seq]. rewrite bind_cons, length_app, Hlen, IH. lia.
Qed.

(** ** Filtering simplices on the edges *)

Lemma edge_flag_01 (k n0 n1 r c : nat) :
  edge_flag k n0 n1 r c = 0%Z ∨ edge_flag k n0 n1 r c = 1%Z.
Proof.
  unfold edge_flag. destruct k as [| [| [| k]]]; case_bool_decide; auto.
Qed.

Lemma edge_flag_side (n0 n1 : nat) (e : side) (v : nat) :
  edge_flag (side_index e) n0 n1 (v / n1) (v mod n1) = 1%Z ↔
  on_side n0 n1 e v.
Proof.
  destruct e; simpl; case_bool_decide; split; intros; try done.
Qed.

Lemma edges_ravel_lookup (k n0 n1 v : nat) :
  (v < n0 * n1)%nat →
  edges_ravel k n0 n1 !! v = Some (edge_flag k n0 n1 (v / n1) (v mod n1)).
Proof.
  intros Hv. assert (n1 ≠ 0)%nat as Hn1 by lia.
  pose proof (Nat.div_mod_eq v n1) as Hdm.
  pose proof (Nat.mod_upper_bound v n1 Hn1) as Hmod.
  assert (v / n1 < n0)%nat as Hdiv by (apply Nat.Div0.div_lt_upper_bound; lia).
  unfold edges_ravel.
  replace v with ((v / n1) * n1 + v mod n1)%nat at 1 by lia.
  rewrite (lookup_bind_rows _ n1);
    [| intros r; rewrite (length_bind_rows _ 1%nat); [lia | reflexivity]
     | assumption | assumption].
  simpl. replace (v mod n1)%nat with ((v mod n1) * 1 + 0)%nat at 1 by lia.
  rewrite (lookup_bind_rows _ 1%nat) by (try reflexivity; lia).
  reflexivity.
Qed.

Lemma edges_simplices_side (n0 n1 : nat) (e : side)
    (tri_simplices : list simplex) :
  Forall (simplex_in_grid n0 n1) tri_simplices →
  edges_simplices (edges_ravel (side_index e) n0 n1) tri_simplices
    = Ok (side_mask n0 n1 e tri_simplices).
Proof.
  intros Hin. unfold edges_simplices, side_mask. apply mapM_Ok.
  eapply Forall_impl; [exact Hin |].
  intros [[a b] c] (Ha & Hb & Hc).
  rewrite (py_index_nat _ _ _ (edges_ravel_lookup _ _ _ _ Ha)),
    (py_index_nat _ _ _ (edges_ravel_lookup _ _ _ _ Hb)),
    (py_index_nat _ _ _ (edges_ravel_lookup _ _ _ _ Hc)).
  cbn. f_equal. apply bool_decide_ext. unfold simplex_on_side.
  rewrite <- !edge_flag_side.
  destruct (edge_flag_01 (side_index e) n0 n1 (a / n1) (a mod n1)) as [-> | ->],
    (edge_flag_01 (side_index e) n0 n1 (b / n1) (b mod n1)) as [-> | ->],
    (edge_flag_01 (side_index e) n0 n1 (c / n1) (c mod n1)) as [-> | ->];
    split; intros; try lia; try done; intuition discriminate.
Qed.

Section FilterPasses.
Variables (n0 n1 : nat) (tri_simplices : list simplex).
Hypothesis tri_not_empty : tri_simplices ≠ [].
Hypothesis tri_in_grid : Forall (simplex_in_grid n0 n1) tri_simplices.

Lemma pass_minus_one (e : side) : pass n0 n1 tri_simplices e (-1) = (-1)%Z.
Proof using Type.
  unfold pass. destruct (py_index _ _) as [[|] |]; reflexivity.
Qed.

Lemma pass_simplex (e : side) (s : Z) (t : simplex) :
  (0 ≤ s)%Z → tri_simplices !! Z.to_nat s = Some t →
  pass n0 n1 tri_simplices e s
    = if decide (simplex_on_side n0 n1 e t) then (-1)%Z else s.
Proof using Type.
  intros Hs Ht. unfold pass.
  rewrite (py_index_nonneg _ s (bool_decide (simplex_on_side n0 n1 e t)))
    by (try assumption; unfold side_mask;
        rewrite list_lookup_fmap, Ht; reflexivity).
  destruct (decide _) as [H | H].
  - rewrite bool_decide_eq_true_2 by exact H. reflexivity.
  - rewrite bool_decide_eq_false_2 by exact H. reflexivity.
Qed.

Lemma pass_in_range (e : side) (s : Z) :
  selected_in_range tri_simplices s →
  selected_in_range tri_simplices (pass n0 n1 tri_simplices e s).
Proof using Type.
  unfold selected_in_range, pass. intros Hs.
  destruct (py_index _ _) as [[|] |]; lia.
Qed.

Lemma mask_simplices_pass (e : side) (selected : list Z) :
  Forall (selected_in_range tri_simplices) selected →
  mask_simplices (side_mask n0 n1 e tri_simplices) selected
    = Ok (pass n0 n1 tri_simplices e <$> selected).
Proof using tri_not_empty.
  intros Hsel. unfold mask_simplices. apply mapM_Ok.
  eapply Forall_impl; [exact Hsel |]. intros s Hs. unfold pass.
  destruct (py_index_in_range (side_mask n0 n1 e tri_simplices) s)
    as [b ->].
  - unfold side_mask. rewrite length_fmap. unfold selected_in_range in Hs.
    assert (length tri_simplices ≠ 0%nat) as Hlen
        by (intros H0; apply nil_length_inv in H0; done).
    lia.
  - destruct b; reflexivity.
Qed.

Lemma filter_side_pass (e : side) (selected : ndarray Z) :
  Forall (selected_in_range tri_simplices) (data selected) →
  filter_side n0 n1 tri_simplices selected (side_index e)
    = Ok (NdArray (shape0 selected) (shape1 selected)
            (pass n0 n1 tri_simplices e <$> data selected)).
Proof using tri_not_empty tri_in_grid.
  intros Hsel. unfold filter_side.
  rewrite edges_simplices_side by exact tri_in_grid.
  cbn [mbind result_bind].
  rewrite mask_simplices_pass by exact Hsel. reflexivity.
Qed.

Lemma filter_sides_passes (sides : list side) (selected : ndarray Z) :
  Forall (selected_in_range tri_simplices) (data selected) →
  for_each (filter_side n0 n1 tri_simplices) (side_index <$> sides) selected
    = Ok (NdArray (shape0 selected) (shape1 selected)
            (foldl (λ buf e, pass n0 n1 tri_simplices e <$> buf)
               (data selected) sides)).
Proof using tri_not_empty tri_in_grid.
  revert selected. induction sides as [| e sides IH]; intros selected Hsel.
  - destruct selected; reflexivity.
  - rewrite fmap_cons. cbn [for_each].
    rewrite filter_side_pass by exact Hsel. cbn [mbind result_bind].
    rewrite IH; [reflexivity |].
    cbn [data]. apply Forall_fmap. eapply Forall_impl; [exact Hsel |].
    intros s Hs. apply pass_in_range. exact Hs.
Qed.

Lemma filter_simplices_on_the_edges_run (selected : ndarray Z) :
  (0 < n0)%nat → (0 < n1)%nat →
  Forall (selected_in_range tri_simplices) (data selected) →
  filter_simplices_on_the_edges (n0, n1) tri_simplices selected
    = Ok (NdArray (shape0 selected) (shape1 selected)
            (filtered n0 n1 tri_simplices <$> data selected)).
Proof using tri_not_empty tri_in_grid.
  intros Hn0 Hn1 Hsel. unfold filter_simplices_on_the_edges.
  rewrite bool_decide_eq_false_2 by lia.
  change (seq 0 4) with (side_index <$> [Left; Bottom; Right; Top]).
  rewrite filter_sides_passes by exact Hsel.
  cbn [foldl]. rewrite <- !list_fmap_compose.
  unfold filtered, compose. reflexivity.
Qed.

Lemma filtered_minus_one : filtered n0 n1 tri_simplices (-1) = (-1)%Z.
Proof using Type. unfold filtered. rewrite !pass_minus_one. reflexivity. Qed.

Lemma filtered_simplex (s : Z) (t : simplex) :
  (0 ≤ s)%Z → tri_simplices !! Z.to_nat s = Some t →
  filtered n0 n1 tri_simplices s
    = if decide (simplex_on_one_side n0 n1 t) then (-1)%Z else s.
Proof using Type.
  intros Hs Ht. unfold filtered.
  rewrite (pass_simplex Left s t) by assumption.
  destruct (decide (simplex_on_side n0 n1 Left t)) as [HL | HL].
  { rewrite !pass_minus_one.
    rewrite decide_True by (left; exact HL). reflexivity. }
  rewrite (pass_simplex Bottom s t) by assumption.
  destruct (decide (simplex_on_side n0 n1 Bottom t)) as [HB | HB].
  { rewrite !pass_minus_one.
    rewrite decide_True by (right; left; exact HB). reflexivity. }
  rewrite (pass_simplex Right s t) by assumption.
  destruct (decide (simplex_on_side n0 n1 Right t)) as [HR | HR].
  { rewrite !pass_minus_one.
    rewrite decide_True by (right; right; left; exact HR). reflexivity. }
  rewrite (pass_simplex Top s t) by assumption.
  destruct (decide (simplex_on_side n0 n1 Top t)) as [HT | HT].
  { rewrite decide_True by (right; right; right; exact HT). reflexivity. }
  rewrite decide_False; [reflexivity |].
  unfold simplex_on_one_side. tauto.
Qed.
End FilterPasses.

Lemma interior_vertex_not_on_one_side (n0 n1 : nat) (t : simplex) :
  has_interior_vertex n0 n1 t → ¬ simplex_on_one_side n0 n1 t.
Proof.
  destruct t as [[a b] c].
  unfold has_interior_vertex, simplex_on_one_side, simplex_on_side,
    on_boundary.
  tauto.
Qed.

(** C3, as stated, fails: the corner triangle [(0, 1, 3)] of the 3 x 3 grid
    has its three vertices on the outer boundary (vertex 0 in the corner,
    vertex 1 on the first row, vertex 3 on the first column), and the filter
    keeps it, since no single side holds all three. *)
Lemma filter_corner_simplex_counterexample :
  simplex_on_boundary 3 3 (0, 1, 3)%nat ∧
  filter_simplices_on_the_edges (3, 3)%nat grid3_simplices (NdArray 1 1 [0%Z])
    = Ok (NdArray 1 1 [0%Z]) ∧
  ¬ marks_boundary_simplices 3 3 grid3_simplices (NdArray 1 1 [0%Z]).
Proof.
  assert (simplex_on_boundary 3 3 (0, 1, 3)%nat) as Hb.
  { unfold simplex_on_boundary, on_boundary, on_side.
    repeat split; [left | right; right; right | left]; reflexivity. }
  split; [exact Hb |]. split; [vm_compute; reflexivity |].
  intros Hclaim.
  specialize (Hclaim (NdArray 1 1 [0%Z]) ltac:(vm_compute; reflexivity)
                0%nat 0%Z (0, 1, 3)%nat eq_refl ltac:(lia) eq_refl Hb).
  discriminate Hclaim.
Qed.

(** C3, amended: on a grid with at least one row and one column, with a
    triangulation of its points and selected entries that are simplex
    indices or [-1], the filter keeps the shape of the selected-simplices
    array and rewrites each entry on its own: [-1] stays [-1]; a simplex
    whose three vertices lie on one and the same side of the grid (all on
    the first column, all on the last row, all on the last column or all on
    the first row) becomes [-1]; every other simplex, in particular one with
    an interior vertex, is left as it is. *)
Theorem filter_simplices_on_the_edges_spec (n0 n1 : nat)
    (tri_simplices : list simplex) (selected : ndarray Z) :
  (0 < n0)%nat → (0 < n1)%nat → tri_simplices ≠ [] →
  Forall (simplex_in_grid n0 n1) tri_simplices →
  Forall (selected_in_range tri_simplices) (data selected) →
  ∃ out,
    filter_simplices_on_the_edges (n0, n1) tri_simplices selected = Ok out ∧
    shape0 out = shape0 selected ∧ shape1 out = shape1 selected ∧
    length (data out) = length (data selected) ∧
    ∀ (p : nat) (s : Z), data selected !! p = Some s →
      (s = (-1)%Z → data out !! p = Some (-1)%Z) ∧
      (∀ t : simplex, (0 ≤ s)%Z → tri_simplices !! Z.to_nat s = Some t →
         (simplex_on_one_side n0 n1 t → data out !! p = Some (-1)%Z) ∧
         (¬ simplex_on_one_side n0 n1 t → data out !! p = Some s) ∧
         (has_interior_vertex n0 n1 t → data out !! p = Some s)).
Proof.
  intros Hn0 Hn1 Hne Hgrid Hsel. eexists. split.
  { apply filter_simplices_on_the_edges_run; assumption. }
  cbn [shape0 shape1 data]. rewrite length_fmap.
  do 3 (split; [reflexivity |]).
  intros p s Hp. rewrite list_lookup_fmap, Hp. cbn [fmap option_fmap option_map].
  split.
  - intros ->. rewrite filtered_minus_one. reflexivity.
  - intros t Hs Ht. rewrite (filtered_simplex n0 n1 tri_simplices s t Hs Ht).
    repeat split.
    + intros H. rewrite decide_True by exact H. reflexivity.
    + intros H. rewrite decide_False by exact H. reflexivity.
    + intros H. apply interior_vertex_not_on_one_side in H.
      rewrite decide_False by exact H. reflexivity.
Qed.

Lemma filter_simplices_on_the_edges_spec_witness :
  ∃ out,
    filter_simplices_on_the_edges (3, 3)%nat ((0, 1, 2)%nat :: grid3_simplices)
      (NdArray 1 3 [0; 2; -1]%Z) = Ok out ∧
    data out = [-1; 2; -1]%Z.
Proof.
  destruct (filter_simplices_on_the_edges_spec 3 3
              ((0, 1, 2)%nat :: grid3_simplices) (NdArray 1 3 [0; 2; -1]%Z))
    as (out & Hout & _); [lia | lia | discriminate | | |].
  - unfold grid3_simplices.
    repeat (constructor; [cbn; lia |]). constructor.
  - cbn [data]. repeat (constructor; [unfold selected_in_range; cbn; lia |]).
    constructor.
  - exists out. split; [exact Hout |].
    vm_compute in Hout. injection Hout as <-. reflexivity.
Defined.

(** ** The disk wrapper's id counter *)

Lemma zrange_app (a n m : Z) :
  (0 ≤ n)%Z → (0 ≤ m)%Z →
  zrange a (a + n + m) = zrange a (a + n) ++ zrange (a + n) (a + n + m).
Proof.
  intros Hn Hm. unfold zrange.
  replace (Z.to_nat (a + n + m - a)) with (Z.to_nat n + Z.to_nat m)%nat by lia.
  rewrite seq_app, fmap_app. f_equal.
  - f_equal. f_equal. lia.
  - replace (Z.to_nat (a + n + m - (a + n))) with (Z.to_nat m) by lia.
    rewrite (Nat.add_comm 0), <- (fmap_add_seq (Z.to_nat n) 0),
      <- list_fmap_compose.
    apply list_fmap_ext. intros _ k _. simpl. lia.
Qed.

Lemma zrange_sorted (lo hi : Z) : StronglySorted Z.lt (zrange lo hi).
Proof.
  unfold zrange. generalize (Z.to_nat (hi - lo)) as n. intros n.
  generalize 0%nat as a. induction n as [| n IH]; intros a; cbn.
  - constructor.
  - constructor; [apply IH |].
    apply Forall_fmap, Forall_forall. intros k Hk.
    apply elem_of_seq in Hk. simpl. lia.
Qed.

Lemma issue_id_iter (n : nat) (self : WrapperDisk) (ids : list Z) :
  Nat.iter n issue_id (self, ids)
    = ({| tmp_dir := tmp_dir self;
          current_object_id := current_object_id self + Z.of_nat n |},
       ids ++ zrange (current_object_id self)
                (current_object_id self + Z.of_nat n)).
Proof.
  induction n as [| n IH].
  - cbn. destruct self. rewrite Z.add_0_r.
    unfold zrange. rewrite Z.sub_diag. cbn. rewrite app_nil_r. reflexivity.
  - rewrite Nat.iter_succ, IH. unfold issue_id. cbn [tmp_dir current_object_id].
    f_equal; [f_equal; lia |].
    replace (current_object_id self + Z.of_nat (S n))%Z
      with (current_object_id self + Z.of_nat n + 1)%Z by lia.
    rewrite zrange_app, <- app_assoc by lia. do 2 f_equal.
    unfold zrange.
    replace (Z.to_nat (current_object_id self + Z.of_nat n + 1
                       - (current_object_id self + Z.of_nat n))) with 1%nat
      by lia.
    cbn. f_equal. lia.
Qed.

Section WrapperIds.
Context {Func Val : Type}.

(** One call: the ids it puts in the returned keyword arguments are the
    [nout] values from the counter on, and the counter moves by [nout]. *)
Lemma get_function_and_kwargs_ids (self : WrapperDisk) (func : Func)
    (kwargs : gmap string (kwarg Func Val)) (nout : Z) :
  (0 ≤ nout)%Z →
  let res := get_function_and_kwargs self func kwargs nout in
  issued_ids res.2
    = zrange (current_object_id self) (current_object_id self + nout) ∧
  current_object_id res.1 = (current_object_id self + nout)%Z ∧
  tmp_dir res.1 = tmp_dir self.
Proof.
  intros Hn. unfold get_function_and_kwargs. rewrite issue_id_iter.
  rewrite Z2Nat.id by exact Hn. cbn [fst snd tmp_dir current_object_id].
  repeat split. unfold issued_ids. cbn [snd].
  rewrite lookup_insert_ne by done. rewrite lookup_insert_ne by done.
  rewrite lookup_insert_eq. reflexivity.
Qed.

Lemma total_nout_nonneg
    (calls : list (Func * gmap string (kwarg Func Val) * Z)) :
  Forall (λ c, (0 ≤ c.2)%Z) calls → (0 ≤ total_nout calls)%Z.
Proof.
  induction 1 as [| c calls Hc _ IH]; [cbn; lia |].
  change (total_nout (c :: calls)) with (c.2 + total_nout calls)%Z. lia.
Qed.

Lemma run_calls_ids (self : WrapperDisk)
    (calls : list (Func * gmap string (kwarg Func Val) * Z)) :
  Forall (λ c, (0 ≤ c.2)%Z) calls →
  let res := run_calls self calls in
  Forall2 (λ c out, Z.of_nat (length (issued_ids out)) = c.2) calls res.2 ∧
  concat (issued_ids <$> res.2)
    = zrange (current_object_id self)
        (current_object_id self + total_nout calls) ∧
  current_object_id res.1 = (current_object_id self + total_nout calls)%Z.
Proof.
  intros Hcalls. revert self.
  induction Hcalls as [| [[func kwargs] nout] calls Hn Hcalls IH];
    intros self.
  - cbn. rewrite Z.add_0_r. unfold zrange. rewrite Z.sub_diag.
    repeat split. constructor.
  - cbn [run_calls total_nout foldr snd] in *.
    pose proof (get_function_and_kwargs_ids self func kwargs nout Hn)
      as (Hids & Hcur & _).
    destruct (get_function_and_kwargs self func kwargs nout) as [self1 out].
    cbn [fst snd] in *.
    specialize (IH self1).
    destruct (run_calls self1 calls) as [self2 outs]. cbn [fst snd] in *.
    destruct IH as (Hlen & Hcat & Hend). fold (total_nout calls) in *.
    pose proof (total_nout_nonneg calls Hcalls) as Htot.
    repeat split.
    + constructor; [| exact Hlen].
      rewrite Hids. unfold zrange. rewrite length_fmap, length_seq.
      cbn [snd]. lia.
    + rewrite fmap_cons. cbn [concat]. rewrite Hids, Hcat, Hcur.
      rewrite Z.add_assoc. symmetry. apply zrange_app; assumption.
    + rewrite Hend, Hcur. lia.
Qed.
End WrapperIds.

(** C9: on one wrapper instance, created with its counter at 0, any
    sequence of calls to [get_function_and_kwargs] with non-negative [nout]
    gives each call exactly [nout] ids; the ids issued over the whole
    sequence, in call order, are the counter values [0, 1, ...]: strictly
    increasing, pairwise distinct, and as many as the final counter says. *)
Theorem wrapper_ids_unique {Func Val : Type}
    (path_join : string → string → string) (dir : string)
    (calls : list (Func * gmap string (kwarg Func Val) * Z)) :
  Forall (λ c, (0 ≤ c.2)%Z) calls →
  let res := run_calls (WrapperDisk_init path_join dir) calls in
  let ids := concat (issued_ids <$> res.2) in
  current_object_id (WrapperDisk_init path_join dir) = 0%Z ∧
  Forall2 (λ c out, Z.of_nat (length (issued_ids out)) = c.2) calls res.2 ∧
  StronglySorted Z.lt ids ∧
  NoDup ids ∧
  current_object_id res.1 = Z.of_nat (length ids) ∧
  ids = zrange 0 (Z.of_nat (length ids)).
Proof.
  intros Hcalls res ids.
  destruct (run_calls_ids (WrapperDisk_init path_join dir) calls Hcalls)
    as (Hlen & Hcat & Hend).
  fold res in Hlen, Hcat, Hend. fold ids in Hcat.
  cbn [WrapperDisk_init current_object_id] in Hcat, Hend.
  rewrite Z.add_0_l in Hcat, Hend.
  pose proof (total_nout_nonneg calls Hcalls) as Htot.
  assert (Z.of_nat (length ids) = total_nout calls) as Hcount.
  { rewrite Hcat. unfold zrange. rewrite length_fmap, length_seq. lia. }
  split; [reflexivity |]. split; [exact Hlen |].
  split; [rewrite Hcat; apply zrange_sorted |].
  split; [rewrite Hcat; apply NoDup_zrange |].
  split; [rewrite Hend, Hcount; reflexivity |].
  rewrite Hcount. exact Hcat.
Qed.

Lemma wrapper_ids_unique_witness :
  NoDup (concat (issued_ids
                   <$> (run_calls (WrapperDisk_init example_path_join "out")
                          example_calls).2)) ∧
  concat (issued_ids
            <$> (run_calls (WrapperDisk_init example_path_join "out")
                   example_calls).2) = [0; 1; 2; 3; 4]%Z.
Proof.
  destruct (wrapper_ids_unique example_path_join "out" example_calls)
    as (_ & _ & _ & Hnodup & _).
  - unfold example_calls. repeat (constructor; [cbn; lia |]). constructor.
  - split; [exact Hnodup |]. vm_compute. reflexivity.
Defined.

(** ** Epipolar tiles required by a terrain tile *)

Section RequiredTilesFacts.
Context {T : Type}.
Implicit Types (pc_left pc_right : CarsDataset T) (acc : required T).

Lemma take_tile_Ok pc_left pc_right acc acc' (e : tile_entry) :
  take_tile pc_left pc_right acc e = Ok acc' →
  list_indexes acc' = list_indexes acc ++ kept_indexes pc_left [e] ∧
  length (required_point_clouds_left acc')
    = (length (required_point_clouds_left acc)
       + length (kept_indexes pc_left [e]))%nat ∧
  length (required_point_clouds_right acc')
    = (length (required_point_clouds_right acc)
       + length (kept_indexes pc_left [e]))%nat.
Proof.
  unfold take_tile, kept_indexes. cbn [fst snd].
  rewrite filter_cons, filter_nil.
  fold (in_grid pc_left (idy e) (idx e)).
  destruct (decide (in_grid pc_left (idy e) (idx e))) as [Hin | Hout].
  - rewrite bool_decide_eq_true_2 by exact Hin.
    destruct (ds_getitem pc_left (idy e) (idx e)) as [l |]; [| discriminate].
    destruct (ds_getitem pc_right (idy e) (idx e)) as [r |]; [| discriminate].
    cbn. intros [= <-]. cbn. rewrite !length_app. cbn. auto.
  - rewrite bool_decide_eq_false_2 by exact Hout.
    intros [= <-]. cbn. rewrite app_nil_r. auto with lia.
Qed.

Lemma take_tile_total pc_left pc_right acc (e : tile_entry) :
  tiles_cover pc_left pc_left → tiles_cover pc_left pc_right →
  ∃ acc', take_tile pc_left pc_right acc e = Ok acc'.
Proof.
  intros Hl Hr. unfold take_tile. cbn [fst snd].
  fold (in_grid pc_left (idy e) (idx e)).
  case_bool_decide as Hin; [| eauto].
  destruct (Hl _ _ Hin) as [l ->], (Hr _ _ Hin) as [r ->]. cbn. eauto.
Qed.

Lemma kept_indexes_cons pc_left (e : tile_entry) (tiles : list tile_entry) :
  kept_indexes pc_left (e :: tiles)
    = kept_indexes pc_left [e] ++ kept_indexes pc_left tiles.
Proof.
  unfold kept_indexes. rewrite !filter_cons, filter_nil.
  destruct (decide _); reflexivity.
Qed.

Lemma take_tiles_Ok pc_left pc_right (tiles : list tile_entry) acc acc' :
  for_each (take_tile pc_left pc_right) tiles acc = Ok acc' →
  list_indexes acc' = list_indexes acc ++ kept_indexes pc_left tiles ∧
  length (required_point_clouds_left acc')
    = (length (required_point_clouds_left acc)
       + length (kept_indexes pc_left tiles))%nat ∧
  length (required_point_clouds_right acc')
    = (length (required_point_clouds_right acc)
       + length (kept_indexes pc_left tiles))%nat.
Proof.
  revert acc. induction tiles as [| e tiles IH]; intros acc; cbn [for_each].
  - intros [= <-]. unfold kept_indexes. cbn. rewrite app_nil_r. auto with lia.
  - destruct (take_tile pc_left pc_right acc e) as [acc1 |] eqn:He;
      [| discriminate].
    cbn [mbind result_bind]. intros Hrest.
    apply take_tile_Ok in He as (Hi & Hl & Hr).
    apply IH in Hrest as (Hi' & Hl' & Hr').
    rewrite kept_indexes_cons, length_app.
    rewrite Hi', Hl', Hr', Hi, Hl, Hr, <- app_assoc. auto with lia.
Qed.

Lemma take_tiles_total pc_left pc_right (tiles : list tile_entry) acc :
  tiles_cover pc_left pc_left → tiles_cover pc_left pc_right →
  ∃ acc', for_each (take_tile pc_left pc_right) tiles acc = Ok acc'.
Proof.
  intros Hl Hr. revert acc. induction tiles as [| e tiles IH]; intros acc;
    cbn [for_each]; [eauto |].
  destruct (take_tile_total pc_left pc_right acc e Hl Hr) as [acc1 ->].
  cbn. apply IH.
Qed.

Lemma elem_of_kept_indexes pc_left (tiles : list tile_entry) (id_y id_x : Z) :
  (id_y, id_x) ∈ kept_indexes pc_left tiles ↔
  in_grid pc_left id_y id_x ∧
  ∃ e, e ∈ tiles ∧ idy e = id_y ∧ idx e = id_x.
Proof.
  unfold kept_indexes. rewrite list_elem_of_fmap. split.
  - intros (e & [= -> ->] & He). apply list_elem_of_filter in He as [Hin He].
    eauto.
  - intros (Hin & e & He & <- & <-). exists e. split; [reflexivity |].
    apply list_elem_of_filter. auto.
Qed.
End RequiredTilesFacts.

Section RequiredPairsFacts.
Context {T : Type}.
Implicit Types (acc : required T).
Implicit Types
  (pair : CarsDataset T * CarsDataset T * ndarray point * ndarray point).

Lemma take_pair_Ok (j i : nat) acc acc' pair :
  take_pair j i acc pair = Ok acc' →
  list_indexes acc' = list_indexes acc ++ pair_indexes j i pair ∧
  length (required_point_clouds_left acc')
    = (length (required_point_clouds_left acc)
       + length (pair_indexes j i pair))%nat ∧
  length (required_point_clouds_right acc')
    = (length (required_point_clouds_right acc)
       + length (pair_indexes j i pair))%nat.
Proof.
  destruct pair as [[[pc_left pc_right] mn] mx]. unfold take_pair, pair_indexes.
  destruct (pair_epipolar_region pc_left mn mx j i) as [[[r largest] ts] |];
    [| discriminate].
  cbn [mbind result_bind]. destruct (empty r).
  - intros [= <-]. rewrite app_nil_r. cbn. auto with lia.
  - destruct (list_tiles r largest (inject_Z ts) list_tiles_default_margin)
      as [tiles |]; [| discriminate].
    cbn [mbind result_bind]. apply take_tiles_Ok.
Qed.

Lemma list_tiles_total (r largest : region) (ts : Z) (margin : Z) :
  ts ≠ 0%Z → ∃ tiles, list_tiles r largest (inject_Z ts) margin = Ok tiles.
Proof.
  intros Hts. unfold list_tiles.
  destruct (Qeq_bool (inject_Z ts) 0) eqn:E; [| eauto].
  apply Qeq_bool_iff in E. exfalso. apply Hts.
  apply (proj1 (inject_Z_injective ts 0)). exact E.
Qed.

Lemma take_pair_total (j i : nat) acc pair :
  pair_ok j i pair → ∃ acc', take_pair j i acc pair = Ok acc'.
Proof.
  destruct pair as [[[pc_left pc_right] mn] mx].
  intros ((r & largest & ts & Hreg & Hts) & Hl & Hr).
  unfold take_pair. rewrite Hreg. cbn [mbind result_bind].
  destruct (empty r); [eauto |].
  destruct (list_tiles_total r largest ts list_tiles_default_margin Hts)
    as [tiles ->].
  cbn [mbind result_bind]. apply take_tiles_total; assumption.
Qed.

Lemma take_pairs_Ok (j i : nat) (pairs : list _) acc acc' :
  for_each (take_pair j i) pairs acc = Ok acc' →
  list_indexes acc' = list_indexes acc ++ concat (pair_indexes j i <$> pairs) ∧
  length (required_point_clouds_left acc')
    = (length (required_point_clouds_left acc)
       + length (concat (pair_indexes j i <$> pairs)))%nat ∧
  length (required_point_clouds_right acc')
    = (length (required_point_clouds_right acc)
       + length (concat (pair_indexes j i <$> pairs)))%nat.
Proof.
  revert acc. induction pairs as [| pair pairs IH]; intros acc;
    cbn [for_each].
  - intros [= <-]. cbn. rewrite app_nil_r. auto with lia.
  - destruct (take_pair j i acc pair) as [acc1 |] eqn:Hp; [| discriminate].
    cbn [mbind result_bind]. intros Hrest.
    apply take_pair_Ok in Hp as (Hi & Hl & Hr).
    apply IH in Hrest as (Hi' & Hl' & Hr').
    rewrite fmap_cons. cbn [concat]. rewrite length_app.
    rewrite Hi', Hl', Hr', Hi, Hl, Hr, <- app_assoc. auto with lia.
Qed.

Lemma take_pairs_total (j i : nat) (pairs : list _) acc :
  Forall (pair_ok j i) pairs →
  ∃ acc', for_each (take_pair j i) pairs acc = Ok acc'.
Proof.
  intros Hok. revert acc. induction Hok as [| pair pairs Hp _ IH];
    intros acc; cbn [for_each]; [eauto |].
  destruct (take_pair_total j i acc pair Hp) as [acc1 ->].
  cbn [mbind result_bind]. apply IH.
Qed.

Lemma take_pair_empty (j i : nat) acc pair (r largest : region) (ts : Z) :
  pair_epipolar_region pair.1.1.1 pair.1.2 pair.2 j i = Ok (r, largest, ts) →
  empty r = true →
  take_pair j i acc pair = Ok acc.
Proof.
  destruct pair as [[[pc_left pc_right] mn] mx]. cbn [fst snd].
  intros Hreg Hemp. unfold take_pair. rewrite Hreg.
  cbn [mbind result_bind]. rewrite Hemp. reflexivity.
Qed.

(** When every pair's cropped region is empty the loop leaves the lists as
    they are, whatever else the pairs hold. *)
Lemma take_pairs_all_empty (j i : nat) (pairs : list _) acc :
  Forall (λ pair,
            ∃ r largest ts,
              pair_epipolar_region pair.1.1.1 pair.1.2 pair.2 j i
                = Ok (r, largest, ts) ∧ empty r = true) pairs →
  for_each (take_pair j i) pairs acc = Ok acc.
Proof.
  induction 1 as [| pair pairs Hp _ IH]; cbn [for_each]; [reflexivity |].
  destruct Hp as (r & largest & ts & Hreg & Hemp).
  rewrite (take_pair_empty j i acc pair r largest ts Hreg Hemp).
  cbn [mbind result_bind]. exact IH.
Qed.
End RequiredPairsFacts.

Section RequiredTilesTheorems.
Context {T : Type}.
Implicit Types
  (pair : CarsDataset T * CarsDataset T * ndarray point * ndarray point).

Lemma elem_of_pair_indexes (j i : nat) pair (id_y id_x : Z) :
  pair_tile_size_positive j i pair →
  (id_y, id_x) ∈ pair_indexes j i pair ↔ pair_candidate j i pair id_y id_x.
Proof.
  destruct pair as [[[pc_left pc_right] mn] mx].
  unfold pair_tile_size_positive, pair_candidate, pair_indexes.
  cbn [fst snd]. intros Hpos.
  destruct (pair_epipolar_region pc_left mn mx j i) as [[[r largest] ts] | err].
  2: { split; [intros H; inversion H | intros (? & ? & ? & [=] & _)]. }
  specialize (Hpos r largest ts eq_refl).
  assert (0 < inject_Z ts)%Q as Hts
      by (change 0%Q with (inject_Z 0); rewrite <- Zlt_Qlt; exact Hpos).
  destruct (empty r) eqn:Hemp.
  { split; [intros H; inversion H |].
    intros (? & ? & ? & [= <- <- <-] & Hne & _). congruence. }
  destruct (list_tiles_elem r largest (inject_Z ts) list_tiles_default_margin
              Hts) as (tiles & -> & Hspec).
  rewrite elem_of_kept_indexes. split.
  - intros (Hin & e & He & <- & <-). apply Hspec in He as (Hrange & Ht & Hne).
    exists r, largest, ts. rewrite <- Ht. auto.
  - intros (? & ? & ? & [= <- <- <-] & _ & Hrange & Hne & Hin).
    split; [exact Hin |].
    exists (TileEntry id_x id_y (crop (tile_box (inject_Z ts) id_x id_y) largest)).
    split; [| auto]. apply Hspec. cbn [idx idy tile]. auto.
Qed.

Lemma pair_indexes_in_grid (j i : nat) pair :
  Forall (λ '(id_y, id_x), in_grid pair.1.1.1 id_y id_x) (pair_indexes j i pair).
Proof.
  destruct pair as [[[pc_left pc_right] mn] mx]. unfold pair_indexes.
  cbn [fst snd].
  destruct (pair_epipolar_region pc_left mn mx j i) as [[[r largest] ts] |];
    [| constructor].
  destruct (empty r); [constructor |].
  destruct (list_tiles _ _ _ _) as [tiles |]; [| constructor].
  apply Forall_forall. intros [id_y id_x] Hin.
  apply elem_of_kept_indexes in Hin as [Hin _]. exact Hin.
Qed.

(** The run of the whole function, once it returns. *)
Lemma get_corresponding_tiles_row_col_Ok (terrain_grid : ndarray point)
    (row col : nat) (lefts rights : list (CarsDataset T))
    (mins maxs : list (ndarray point))
    (tr : region) (l r : list T) (rank : Z) (idxs : list (Z * Z)) :
  get_corresponding_tiles_row_col terrain_grid row col lefts rights mins maxs
    = Ok (tr, l, r, rank, idxs) →
  idxs = concat (pair_indexes row col <$> zip4 lefts rights mins maxs) ∧
  length l = length idxs ∧ length r = length idxs ∧
  rank = (Z.of_nat col * Z.of_nat col + Z.of_nat row * Z.of_nat row)%Z ∧
  ∃ p00 p11,
    getitem terrain_grid row col = Ok p00 ∧
    getitem terrain_grid (row + 1) (col + 1) = Ok p11 ∧
    tr = Region p00.1 p00.2 p11.1 p11.2.
Proof.
  unfold get_corresponding_tiles_row_col.
  destruct (getitem terrain_grid row col) as [p00 |]; [| discriminate].
  destruct (getitem terrain_grid (row + 1) (col + 1)) as [p11 |];
    [| discriminate].
  cbn [mbind result_bind].
  destruct (for_each _ _ _) as [acc |] eqn:Hloop; [| discriminate].
  cbn [mbind result_bind mret result_ret]. intros [= <- <- <- <- <-].
  apply take_pairs_Ok in Hloop as (Hi & Hl & Hr). cbn in Hi, Hl, Hr.
  rewrite Hi, Hl, Hr. repeat split. eauto.
Qed.
(** The function returns when the terrain cell exists and every pair can be
    processed. *)
Lemma get_corresponding_tiles_row_col_total (terrain_grid : ndarray point)
    (row col : nat) (lefts rights : list (CarsDataset T))
    (mins maxs : list (ndarray point)) (p00 p11 : point) :
  getitem terrain_grid row col = Ok p00 →
  getitem terrain_grid (row + 1) (col + 1) = Ok p11 →
  Forall (pair_ok row col) (zip4 lefts rights mins maxs) →
  ∃ tr l r rank idxs,
    get_corresponding_tiles_row_col terrain_grid row col lefts rights
      mins maxs = Ok (tr, l, r, rank, idxs).
Proof.
  intros H00 H11 Hok.
  unfold get_corresponding_tiles_row_col. rewrite H00, H11.
  cbn [mbind result_bind].
  destruct (take_pairs_total row col _ (Required [] [] []) Hok) as [acc ->].
  cbn [mbind result_bind mret result_ret]. eauto 6.
Qed.

(** A dataset whose tiles are stored as the rows and columns of the tiling
    grid holds a tile at every address. *)
Lemma tiles_cover_rectangular (pc_left ds : CarsDataset T) :
  length (tiles ds) = shape0 (tiling_grid pc_left) →
  Forall (λ row, length row = shape1 (tiling_grid pc_left)) (tiles ds) →
  tiles_cover pc_left ds.
Proof.
  intros Hrows Hcols id_y id_x [Hx Hy]. unfold ds_getitem.
  destruct (py_index_in_range (tiles ds) id_y) as [row Hrow]; [lia |].
  rewrite Hrow. cbn [mbind result_bind].
  apply py_index_elem in Hrow. rewrite Forall_forall in Hcols.
  apply py_index_in_range. rewrite (Hcols row Hrow). lia.
Qed.
End RequiredTilesTheorems.

(** ** A worked example: one pair, tiles of size 10 on a 10 x 10 grid *)

Lemma example_inside_run :
  get_corresponding_tiles_row_col example_terrain_grid 0 0
    [example_dataset] [example_dataset]
    [example_points_inside] [example_points_inside]
  = Ok (Region 0 0 50 50,
        [(0, 0); (1, 0); (2, 0); (0, 1); (1, 1); (2, 1); (0, 2); (1, 2); (2, 2)]%Z,
        [(0, 0); (1, 0); (2, 0); (0, 1); (1, 1); (2, 1); (0, 2); (1, 2); (2, 2)]%Z,
        0%Z,
        [(0, 0); (1, 0); (2, 0); (0, 1); (1, 1); (2, 1); (0, 2); (1, 2); (2, 2)]%Z).
Proof. vm_compute. reflexivity. Qed.

Lemma example_inside_region :
  pair_epipolar_region example_dataset example_points_inside
    example_points_inside 0 0
  = Ok (Region 12 12 18 18, Region 0 0 100 100, 10%Z).
Proof. vm_compute. reflexivity. Qed.

Lemma example_outside_region :
  pair_epipolar_region example_dataset example_points_outside
    example_points_outside 0 0
  = Ok (Region 100 100 100 100, Region 0 0 100 100, 10%Z).
Proof. vm_compute. reflexivity. Qed.

Lemma elem_of_concat {A} (x : A) (ls : list (list A)) :
  x ∈ concat ls ↔ ∃ l, x ∈ l ∧ l ∈ ls.
Proof.
  induction ls as [| l0 ls IH]; cbn [concat].
  - split; [intros H; inversion H | intros (l & _ & H); inversion H].
  - rewrite elem_of_app, IH. split.
    + intros [H | (l & H1 & H2)]; [exists l0 | exists l];
        (split; [assumption |]); [left | right; exact H2].
    + intros (l & H1 & H2). apply elem_of_cons in H2 as [-> | H2];
        [left; exact H1 | right; eauto].
Qed.

Section RequiredTilesClaims.
Context {T : Type}.
Implicit Types
  (pair : CarsDataset T * CarsDataset T * ndarray point * ndarray point).

(** C4: when terrain cell [(row, col)] exists and the cropped epipolar region
    of every stereo pair is empty, the function returns, without raising,
    the terrain region with empty lists of left and right point clouds and
    an empty list of indexes. *)
Theorem required_tiles_all_empty (terrain_grid : ndarray point)
    (row col : nat) (lefts rights : list (CarsDataset T))
    (mins maxs : list (ndarray point)) (p00 p11 : point) :
  getitem terrain_grid row col = Ok p00 →
  getitem terrain_grid (row + 1) (col + 1) = Ok p11 →
  Forall (λ pair,
            ∃ r largest ts,
              pair_epipolar_region pair.1.1.1 pair.1.2 pair.2 row col
                = Ok (r, largest, ts) ∧ empty r = true)
         (zip4 lefts rights mins maxs) →
  get_corresponding_tiles_row_col terrain_grid row col lefts rights mins maxs
    = Ok (Region p00.1 p00.2 p11.1 p11.2, [], [],
          (Z.of_nat col * Z.of_nat col + Z.of_nat row * Z.of_nat row)%Z, []).
Proof.
  intros H00 H11 Hempty. unfold get_corresponding_tiles_row_col.
  rewrite H00, H11. cbn [mbind result_bind].
  rewrite (take_pairs_all_empty row col _ _ Hempty). reflexivity.
Qed.

(** The example of C4: a cell whose epipolar bounds are separated from the
    pair's largest region crops to an empty region. *)
Lemma pair_region_outside_empty (pc_left : CarsDataset T)
    (mn mx : ndarray point) (j i : nat) (cell r largest : region) (ts : Z) :
  cell_epipolar_region mn mx j i = Ok cell →
  pair_epipolar_region pc_left mn mx j i = Ok (r, largest, ts) →
  separated cell largest → empty r = true.
Proof.
  intros Hcell. unfold pair_epipolar_region. rewrite Hcell.
  destruct (attr_region _ _) as [lg |]; [| discriminate].
  destruct (attr_int _ _) as [n |]; [| discriminate].
  cbn. intros [= <- <- <-] Hsep. apply empty_true.
  unfold crop; cbn [x_min x_max y_min y_max].
  destruct Hsep as [H | [H | [H | H]]]; [left | left | right | right];
    q_minmax; lra.
Qed.

(** C10: whenever the function returns, the lists of left and right point
    clouds are as long as the list of indexes, and the indexes are, pair
    after pair, addresses [(id_y, id_x)] with [0 <= id_x < columns] and
    [0 <= id_y < rows] of that pair's tiling grid. And it does return when
    the terrain cell exists and every pair is well formed: no listed tile
    outside the grid is ever read. *)
Theorem required_indexes_in_grid (terrain_grid : ndarray point)
    (row col : nat) (lefts rights : list (CarsDataset T))
    (mins maxs : list (ndarray point)) :
  (∀ tr l r rank idxs,
     get_corresponding_tiles_row_col terrain_grid row col lefts rights
       mins maxs = Ok (tr, l, r, rank, idxs) →
     length l = length idxs ∧ length r = length idxs ∧
     ∃ per_pair : list (list (Z * Z)),
       idxs = concat per_pair ∧
       Forall2 (λ pair ids,
                  Forall (λ '(id_y, id_x), in_grid pair.1.1.1 id_y id_x) ids)
               (zip4 lefts rights mins maxs) per_pair) ∧
  ((∃ p00 p11, getitem terrain_grid row col = Ok p00 ∧
               getitem terrain_grid (row + 1) (col + 1) = Ok p11) →
   Forall (pair_ok row col) (zip4 lefts rights mins maxs) →
   ∃ tr l r rank idxs,
     get_corresponding_tiles_row_col terrain_grid row col lefts rights
       mins maxs = Ok (tr, l, r, rank, idxs)).
Proof.
  split.
  - intros tr l r rank idxs Hrun.
    apply get_corresponding_tiles_row_col_Ok in Hrun
      as (-> & Hl & Hr & _).
    split; [exact Hl |]. split; [exact Hr |].
    eexists. split; [reflexivity |].
    apply Forall2_fmap_r, Forall2_same_length_lookup.
    split; [reflexivity |].
    intros k pair pair' Hk Hk'. rewrite Hk in Hk'. injection Hk' as <-.
    apply pair_indexes_in_grid.
  - intros (p00 & p11 & H00 & H11) Hok.
    exact (get_corresponding_tiles_row_col_total _ _ _ _ _ _ _ _ _
             H00 H11 Hok).
Qed.

(** C1, amended: the tiles are listed with [list_tiles]'s default margin,
    one tile. When the terrain cell exists and the pairs can be processed,
    with positive tile sizes, the function returns, and an address is
    returned exactly when it is a candidate of one of the pairs: the pair's
    cropped region is not empty, the tile widened by one tile on every side
    reaches into it, the tile's crop to the pair's largest region is not
    empty, and its address is one of the pair's tiling grid. *)
Theorem required_tiles_default_margin (terrain_grid : ndarray point)
    (row col : nat) (lefts rights : list (CarsDataset T))
    (mins maxs : list (ndarray point)) (p00 p11 : point) :
  getitem terrain_grid row col = Ok p00 →
  getitem terrain_grid (row + 1) (col + 1) = Ok p11 →
  Forall (pair_ok row col) (zip4 lefts rights mins maxs) →
  Forall (pair_tile_size_positive row col) (zip4 lefts rights mins maxs) →
  list_tiles_default_margin = 1%Z ∧
  ∃ tr l r rank idxs,
    get_corresponding_tiles_row_col terrain_grid row col lefts rights
      mins maxs = Ok (tr, l, r, rank, idxs) ∧
    ∀ id_y id_x,
      (id_y, id_x) ∈ idxs ↔
      ∃ pair, pair ∈ zip4 lefts rights mins maxs ∧
              pair_candidate row col pair id_y id_x.
Proof.
  intros H00 H11 Hok Hpos. split; [reflexivity |].
  destruct (get_corresponding_tiles_row_col_total _ _ _ _ _ _ _ _ _
              H00 H11 Hok) as (tr & l & r & rank & idxs & Hrun).
  exists tr, l, r, rank, idxs. split; [exact Hrun |]. intros id_y id_x.
  apply get_corresponding_tiles_row_col_Ok in Hrun as (-> & _).
  rewrite elem_of_concat. split.
  - intros (ids & Hin & Hids).
    apply list_elem_of_fmap in Hids as (pair & -> & Hpair).
    exists pair. split; [exact Hpair |].
    apply elem_of_pair_indexes; [| exact Hin].
    rewrite Forall_forall in Hpos. apply Hpos, Hpair.
  - intros (pair & Hpair & Hcand). exists (pair_indexes row col pair).
    split; [| apply list_elem_of_fmap; eauto].
    apply elem_of_pair_indexes; [| exact Hcand].
    rewrite Forall_forall in Hpos. apply Hpos, Hpair.
Qed.
End RequiredTilesClaims.

Lemma required_tiles_all_empty_witness :
  get_corresponding_tiles_row_col example_terrain_grid 0 0
    [example_dataset] [example_dataset]
    [example_points_outside] [example_points_outside]
  = Ok (Region 0 0 50 50, [], [], 0%Z, []).
Proof.
  apply (required_tiles_all_empty example_terrain_grid 0 0
           [example_dataset] [example_dataset]
           [example_points_outside] [example_points_outside]
           (0, 0)%Q (50, 50)%Q); [reflexivity | reflexivity |].
  constructor; [| constructor].
  exists (Region 100 100 100 100), (Region 0 0 100 100), 10%Z.
  split; [apply example_outside_region | reflexivity].
Defined.

Lemma required_indexes_in_grid_witness :
  ∃ per_pair : list (list (Z * Z)),
    [(0, 0); (1, 0); (2, 0); (0, 1); (1, 1); (2, 1); (0, 2); (1, 2); (2, 2)]%Z
      = concat per_pair ∧
    Forall2 (λ pair ids,
               Forall (λ '(id_y, id_x), in_grid pair.1.1.1 id_y id_x) ids)
            (zip4 [example_dataset] [example_dataset]
                  [example_points_inside] [example_points_inside]) per_pair.
Proof.
  destruct (required_indexes_in_grid example_terrain_grid 0 0
              [example_dataset] [example_dataset]
              [example_points_inside] [example_points_inside])
    as [Hsafe _].
  destruct (Hsafe _ _ _ _ _ example_inside_run) as (_ & _ & Hper).
  exact Hper.
Defined.

(** C1, as stated, fails: in the worked example the cropped epipolar region
    [[12, 12, 18, 18]] lies inside tile [(1, 1)], and the function returns
    the nine tiles around it; tile [(0, 0)], the box [[0, 0, 10, 10]], has no
    point in common with the region. *)
Lemma required_tiles_margin_counterexample :
  ¬ no_margin_ring example_terrain_grid 0 0
      [example_dataset] [example_dataset]
      [example_points_inside] [example_points_inside].
Proof.
  intros Hclaim.
  destruct (Hclaim _ _ _ _ _ example_inside_run 0%Z 0%Z ltac:(left))
    as (pair & reg & largest & ts & Hpair & Hreg & Hov).
  unfold zip4 in Hpair. cbn [zip_with] in Hpair.
  apply list_elem_of_singleton in Hpair. subst pair. cbn [fst snd] in Hreg.
  rewrite example_inside_region in Hreg. injection Hreg as <- <- <-.
  destruct Hov as ([px py] & (Hx & _) & (Hx' & _)).
  cbn [tile_box x_min x_max fst snd] in Hx, Hx'.
  change (inject_Z (0 + 1) * inject_Z 10)%Q with (1 * 10)%Q in Hx.
  lra.
Qed.

Lemma example_dataset_covered : tiles_cover example_dataset example_dataset.
Proof.
  apply tiles_cover_rectangular; [reflexivity |].
  unfold example_dataset; cbn [tiles tiling_grid shape1].
  apply Forall_fmap, Forall_forall. intros y _. cbn.
  unfold zrange. rewrite !length_fmap, length_seq. reflexivity.
Qed.

Lemma required_tiles_default_margin_witness :
  list_tiles_default_margin = 1%Z ∧
  ∃ tr l r rank idxs,
    get_corresponding_tiles_row_col example_terrain_grid 0 0
      [example_dataset] [example_dataset]
      [example_points_inside] [example_points_inside]
      = Ok (tr, l, r, rank, idxs) ∧
    ∀ id_y id_x,
      (id_y, id_x) ∈ idxs ↔
      ∃ pair,
        pair ∈ zip4 [example_dataset] [example_dataset]
                 [example_points_inside] [example_points_inside] ∧
        pair_candidate 0 0 pair id_y id_x.
Proof.
  apply (required_tiles_default_margin example_terrain_grid 0 0
           [example_dataset] [example_dataset]
           [example_points_inside] [example_points_inside]
           (0, 0)%Q (50, 50)%Q); [reflexivity | reflexivity | |].
  - constructor; [| constructor].
    split; [| split; apply example_dataset_covered].
    exists (Region 12 12 18 18), (Region 0 0 100 100), 10%Z.
    split; [apply example_inside_region | discriminate].
  - constructor; [| constructor].
    intros r largest ts Hreg. cbn [fst snd] in Hreg.
    rewrite example_inside_region in Hreg. injection Hreg as _ _ <-. lia.
Defined.

(** ** Terrain grid to epipolar bounds *)

Lemma mapM_total {A B} (f : A → result B) (d : B) (l : list A) :
  Forall (λ x, ∃ y, f x = Ok y) l →
  mapM f l = Ok ((λ x, match f x with Ok y => y | Raise _ => d end) <$> l).
Proof.
  intros Hl. apply mapM_Ok. eapply Forall_impl; [exact Hl |].
  intros x [y ->]. reflexivity.
Qed.

Lemma pt_min3_least (a b c : point) :
  pt_least (pt_min (pt_min a b) c) [a; b; c].
Proof.
  split; [apply (foldl_Qmin_least [b.1; c.1] a.1)
         | apply (foldl_Qmin_least [b.2; c.2] a.2)].
Qed.

Lemma pt_max3_greatest (a b c : point) :
  pt_greatest (pt_max (pt_max a b) c) [a; b; c].
Proof.
  split; [apply (foldl_Qmax_greatest [b.1; c.1] a.1)
         | apply (foldl_Qmax_greatest [b.2; c.2] a.2)].
Qed.

Lemma pt_min4_least (a b c d : point) :
  pt_least (pt_min (pt_min (pt_min a b) c) d) [a; b; c; d].
Proof.
  split; [apply (foldl_Qmin_least [b.1; c.1; d.1] a.1)
         | apply (foldl_Qmin_least [b.2; c.2; d.2] a.2)].
Qed.

Lemma pt_max4_greatest (a b c d : point) :
  pt_greatest (pt_max (pt_max (pt_max a b) c) d) [a; b; c; d].
Proof.
  split; [apply (foldl_Qmax_greatest [b.1; c.1; d.1] a.1)
         | apply (foldl_Qmax_greatest [b.2; c.2; d.2] a.2)].
Qed.

Section BoundExtremes.
Variable cKDTree_query : list point → point → Z.
Variables (n0 n1 : nat) (flat : list point) (tri : triangulation).
Hypothesis flat_length : length flat = (n0 * n1)%nat.
Hypothesis tri_not_empty : simplices tri ≠ [].
Hypothesis tri_in_grid : Forall (simplex_in_grid n0 n1) (simplices tri).

Lemma simplex_points_run (s : Z) :
  selected_in_range (simplices tri) s →
  ∃ a b c pa pb pc,
    py_index (simplices tri) s = Ok (a, b, c) ∧
    flat !! a = Some pa ∧ flat !! b = Some pb ∧ flat !! c = Some pc ∧
    simplex_points flat tri s = Ok (pa, pb, pc).
Proof using flat_length tri_not_empty tri_in_grid.
  intros Hs. unfold selected_in_range in Hs.
  assert (length (simplices tri) ≠ 0%nat) as Hlen
      by (intros H0; apply nil_length_inv in H0; done).
  destruct (py_index_in_range (simplices tri) s ltac:(lia)) as [[[a b] c] Ht].
  pose proof (py_index_elem _ _ _ Ht) as Hin.
  rewrite Forall_forall in tri_in_grid.
  destruct (tri_in_grid _ Hin) as (Ha & Hb & Hc).
  rewrite <- flat_length in Ha, Hb, Hc.
  destruct (lookup_lt_is_Some_2 flat a Ha) as [pa Hpa],
    (lookup_lt_is_Some_2 flat b Hb) as [pb Hpb],
    (lookup_lt_is_Some_2 flat c Hc) as [pc Hpc].
  exists a, b, c, pa, pb, pc. repeat (split; [assumption |]).
  unfold simplex_points. rewrite Ht. cbn [mbind result_bind].
  rewrite (py_index_nat _ _ _ Hpa), (py_index_nat _ _ _ Hpb),
    (py_index_nat _ _ _ Hpc).
  reflexivity.
Qed.

Lemma bound_extremes_run (sample : list point) (precision_factor : Q)
    (s : Z) (q : point) :
  selected_in_range (simplices tri) s →
  (0 ≤ cKDTree_query sample (pt_scale precision_factor q)
     < Z.of_nat (length flat))%Z →
  ∃ ext,
    bound_extremes cKDTree_query flat tri sample precision_factor s q
      = Ok ext ∧
    bound_extremes_spec flat (simplices tri) s
      (cKDTree_query sample (pt_scale precision_factor q)) ext.
Proof using flat_length tri_not_empty tri_in_grid.
  intros Hs Hnn.
  destruct (simplex_points_run s Hs)
    as (a & b & c & pa & pb & pc & Ht & Hpa & Hpb & Hpc & Hpts).
  set (nn := cKDTree_query sample (pt_scale precision_factor q)) in *.
  destruct (lookup_lt_is_Some_2 flat (Z.to_nat nn)) as [pn Hpn]; [lia |].
  unfold bound_extremes. rewrite Hpts. cbn [mbind result_bind].
  fold nn. rewrite (py_index_nonneg _ _ _ (proj1 Hnn) Hpn).
  cbn [mbind result_bind mret result_ret].
  eexists. split; [reflexivity |]. unfold np_where, bound_extremes_spec.
  cbn [fst snd]. split.
  - intros Hne. rewrite !bool_decide_eq_true_2 by exact Hne.
    exists a, b, c, pa, pb, pc.
    assert (0 ≤ s)%Z as H0 by (unfold selected_in_range in Hs; lia).
    assert (simplices tri !! Z.to_nat s = Some (a, b, c)) as Hlook.
    { destruct (lookup_lt_is_Some_2 (simplices tri) (Z.to_nat s)) as [t Hl];
        [unfold selected_in_range in Hs; lia |].
      rewrite (py_index_nonneg _ _ _ H0 Hl) in Ht.
      injection Ht as <-. exact Hl. }
    repeat (split; [assumption |]).
    split; [apply pt_min3_least | apply pt_max3_greatest].
  - intros ->. rewrite !bool_decide_eq_false_2 by (intros H; apply H; reflexivity).
    exists pn. split; [exact Hpn | reflexivity].
Qed.
End BoundExtremes.

Lemma filtered_in_range (n0 n1 : nat) (tri_simplices : list simplex) (s : Z) :
  selected_in_range tri_simplices s →
  selected_in_range tri_simplices (filtered n0 n1 tri_simplices s).
Proof.
  intros Hs. unfold filtered. do 4 apply pass_in_range. exact Hs.
Qed.

(** A run that succeeds at every query point yields a function of the
    query point. *)
Lemma extremes_of_runs {S0 S E : Type} (run : S → point → result E)
    (located : point → S0) (kept : S0 → S) (spec : point → E → Prop) (d : E)
    (queries : list point) :
  (∀ q, ∃ e, run (kept (located q)) q = Ok e ∧ spec q e) →
  ∃ ext : point → E,
    mapM (λ '(s, q), run s q) (zip (kept <$> (located <$> queries)) queries)
      = Ok (ext <$> queries) ∧
    ∀ q, spec q (ext q).
Proof.
  intros Hrun.
  exists (λ q, match run (kept (located q)) q with
               | Ok e => e
               | Raise _ => d
               end).
  split.
  - induction queries as [| q queries IH]; [reflexivity |].
    rewrite !fmap_cons. cbn [zip_with mapM]. rewrite IH.
    destruct (Hrun q) as (e & -> & _). reflexivity.
  - intros q. destruct (Hrun q) as (e & -> & He). exact He.
Qed.

(** From here on the filter is used through its lemmas only. *)
Opaque filtered pass.

Section TerrainGridToEpipolar.
Variable IsGeographic : Z → bool.
Variable Delaunay : list point → result triangulation.
Variable tsearch : triangulation → point → Z.
Variable cKDTree_query : list point → point → Z.

Variables (terrain_grid epipolar_regions_grid : ndarray point).
Variables (epipolar_grid_min epipolar_grid_max : list point) (epsg : Z).
Variables (tri_min tri_max : triangulation).

Let precision_factor : Q := if IsGeographic epsg then 1000%Q else 1%Q.
Let n0 := shape0 epipolar_regions_grid.
Let n1 := shape1 epipolar_regions_grid.
Let flat := reshape_flat epipolar_regions_grid.
Let sample_min := pt_scale precision_factor <$> epipolar_grid_min.
Let sample_max := pt_scale precision_factor <$> epipolar_grid_max.
Let kept_simplex_of :=
  kept_simplex IsGeographic tsearch epipolar_regions_grid epsg.

(** The sampling grid has a row and a column, and its buffer is complete. *)
Hypothesis grid_rows : (0 < n0)%nat.
Hypothesis grid_cols : (0 < n1)%nat.
Hypothesis grid_length : length flat = (n0 * n1)%nat.

(** The collaborators keep their contracts: the triangulations are built,
    over vertices of the sampling grid; point location answers with a
    simplex index or [-1]; the nearest neighbour is one of the samples. *)
Hypothesis delaunay_min : Delaunay sample_min = Ok tri_min.
Hypothesis delaunay_max : Delaunay sample_max = Ok tri_max.
Hypothesis tri_min_not_empty : simplices tri_min ≠ [].
Hypothesis tri_max_not_empty : simplices tri_max ≠ [].
Hypothesis tri_min_in_grid : Forall (simplex_in_grid n0 n1) (simplices tri_min).
Hypothesis tri_max_in_grid : Forall (simplex_in_grid n0 n1) (simplices tri_max).
Hypothesis tsearch_min :
  ∀ q, selected_in_range (simplices tri_min) (tsearch tri_min q).
Hypothesis tsearch_max :
  ∀ q, selected_in_range (simplices tri_max) (tsearch tri_max q).
Hypothesis query_min :
  ∀ q, (0 ≤ cKDTree_query sample_min q < Z.of_nat (length flat))%Z.
Hypothesis query_max :
  ∀ q, (0 ≤ cKDTree_query sample_max q < Z.of_nat (length flat))%Z.

Lemma extremes_of_queries (tri : triangulation) (sample queries : list point) :
  simplices tri ≠ [] → Forall (simplex_in_grid n0 n1) (simplices tri) →
  (∀ q, selected_in_range (simplices tri) (tsearch tri q)) →
  (∀ q, (0 ≤ cKDTree_query sample q < Z.of_nat (length flat))%Z) →
  ∃ ext : point → point * point,
    mapM (λ '(s, q),
            bound_extremes cKDTree_query flat tri sample precision_factor s q)
      (zip (filtered n0 n1 (simplices tri)
              <$> ((λ q, tsearch tri (pt_scale precision_factor q))
                     <$> queries)) queries)
      = Ok (ext <$> queries) ∧
    ∀ q, bound_extremes_spec flat (simplices tri) (kept_simplex_of tri q)
           (cKDTree_query sample (pt_scale precision_factor q)) (ext q).
Proof using grid_length.
  intros Hne Hin Hts Hkd.
  assert (∀ q, ∃ e,
            bound_extremes cKDTree_query flat tri sample precision_factor
              (kept_simplex_of tri q) q = Ok e ∧
            bound_extremes_spec flat (simplices tri) (kept_simplex_of tri q)
              (cKDTree_query sample (pt_scale precision_factor q)) e)
    as Hrun.
  { intros q.
    apply (bound_extremes_run cKDTree_query n0 n1 flat tri grid_length Hne Hin).
    - unfold kept_simplex_of, kept_simplex. apply filtered_in_range, Hts.
    - apply Hkd. }
  exact (extremes_of_runs
           (bound_extremes cKDTree_query flat tri sample precision_factor)
           (λ q, tsearch tri (pt_scale precision_factor q))
           (filtered n0 n1 (simplices tri))
           (λ q e, bound_extremes_spec flat (simplices tri)
                     (kept_simplex_of tri q)
                     (cKDTree_query sample (pt_scale precision_factor q)) e)
           ((0, 0), (0, 0))%Q queries Hrun).
Qed.

(** C2: at every terrain query point, each disparity bound contributes two
    extreme points: with a selected simplex left by the edge filter, the
    component-wise least and greatest of the simplex's three vertex
    positions in the flattened sampling grid; without one, the nearest
    sample twice. The returned [points_min] and [points_max] hold, at that
    point, the component-wise least and greatest of the four extremes. *)
Theorem terrain_grid_to_epipolar_spec :
  ∃ points_min points_max,
    terrain_grid_to_epipolar IsGeographic Delaunay tsearch cKDTree_query
      terrain_grid epipolar_regions_grid epipolar_grid_min
      epipolar_grid_max epsg = Ok (points_min, points_max) ∧
    shape0 points_min = shape0 terrain_grid ∧
    shape1 points_min = shape1 terrain_grid ∧
    shape0 points_max = shape0 terrain_grid ∧
    shape1 points_max = shape1 terrain_grid ∧
    ∀ (k : nat) (q : point), data terrain_grid !! k = Some q →
      ∃ min_min min_max max_min max_max pmin pmax,
        bound_extremes_spec flat (simplices tri_min) (kept_simplex_of tri_min q)
          (cKDTree_query sample_min (pt_scale precision_factor q))
          (min_min, min_max) ∧
        bound_extremes_spec flat (simplices tri_max) (kept_simplex_of tri_max q)
          (cKDTree_query sample_max (pt_scale precision_factor q))
          (max_min, max_max) ∧
        data points_min !! k = Some pmin ∧
        data points_max !! k = Some pmax ∧
        pt_least pmin [min_min; min_max; max_min; max_max] ∧
        pt_greatest pmax [min_min; min_max; max_min; max_max].
Proof using All.
  destruct (extremes_of_queries tri_min sample_min (data terrain_grid)
              tri_min_not_empty tri_min_in_grid tsearch_min query_min)
    as (ext_min & Hmin & Hspec_min).
  destruct (extremes_of_queries tri_max sample_max (data terrain_grid)
              tri_max_not_empty tri_max_in_grid tsearch_max query_max)
    as (ext_max & Hmax & Hspec_max).
  unfold terrain_grid_to_epipolar.
  fold precision_factor. fold sample_min. fold sample_max.
  rewrite delaunay_min, delaunay_max. cbn [mbind result_bind].
  fold n0 n1.
  rewrite (filter_simplices_on_the_edges_run n0 n1 (simplices tri_min))
    by (try assumption; apply Forall_fmap, Forall_forall; intros q _;
        apply tsearch_min).
  cbn [mbind result_bind].
  rewrite (filter_simplices_on_the_edges_run n0 n1 (simplices tri_max))
    by (try assumption; apply Forall_fmap, Forall_forall; intros q _;
        apply tsearch_max).
  cbn [mbind result_bind data shape0 shape1].
  fold flat. rewrite Hmin. cbn [mbind result_bind].
  rewrite Hmax. cbn [mbind result_bind mret result_ret].
  rewrite zip_with_fmap_l, zip_with_fmap_r, zip_with_diag.
  rewrite <- !list_fmap_compose.
  do 2 eexists. split; [reflexivity |]. cbn [shape0 shape1 data].
  do 4 (split; [reflexivity |]).
  intros k q Hq. rewrite !list_lookup_fmap, Hq.
  cbn [fmap option_fmap option_map]. unfold compose. cbv beta.
  specialize (Hspec_min q). specialize (Hspec_max q).
  destruct (ext_min q) as [min_min min_max].
  destruct (ext_max q) as [max_min max_max].
  exists min_min, min_max, max_min, max_max. do 2 eexists.
  split; [exact Hspec_min |]. split; [exact Hspec_max |].
  split; [reflexivity |]. split; [reflexivity |].
  split; [apply pt_min4_least | apply pt_max4_greatest].
Qed.
End TerrainGridToEpipolar.

Lemma terrain_grid_to_epipolar_spec_witness :
  ∃ points_min points_max,
    terrain_grid_to_epipolar (λ _, false) example_Delaunay example_tsearch
      example_query (NdArray 1 2 [(1, 1); (-5, 0)]%Q) example_sampling_grid
      (data example_sampling_grid) (data example_sampling_grid) 32631
      = Ok (points_min, points_max) ∧
    data points_min = [(0, 0); (0, 0)]%Q ∧
    data points_max = [(10, 10); (0, 0)]%Q.
Proof.
  destruct (terrain_grid_to_epipolar_spec (λ _, false) example_Delaunay
              example_tsearch example_query
              (NdArray 1 2 [(1, 1); (-5, 0)]%Q) example_sampling_grid
              (data example_sampling_grid) (data example_sampling_grid) 32631
              (Triangulation (pt_scale 1 <$> data example_sampling_grid)
                 [(0, 1, 2); (1, 3, 2)]%nat)
              (Triangulation (pt_scale 1 <$> data example_sampling_grid)
                 [(0, 1, 2); (1, 3, 2)]%nat))
    as (points_min & points_max & Hrun & _).
  all: try (cbn; lia).
  all: try reflexivity.
  all: try discriminate.
  all: try (intros q; unfold example_tsearch, selected_in_range;
            destruct (Qle_bool 0 q.1); cbn; lia).
  all: try (intros q; unfold example_query; cbn; lia).
  all: try (repeat (constructor; [cbn; lia |]); constructor).
  exists points_min, points_max. split; [exact Hrun |].
  vm_compute in Hrun. injection Hrun as <- <-. split; reflexivity.
Defined.


(** * Further properties *)

(** ** Cropping *)

(** X1: cropping by a consistent region yields a region within it, and keeps
    the edges of a consistent region in order. *)
Theorem crop_within (r b : region) :
  consistent b →
  within (crop r b) b ∧ (consistent r → consistent (crop r b)).
Proof.
  unfold consistent, within, crop. cbn [x_min x_max y_min y_max].
  intros [Hx Hy]. split; [| intros [Hrx Hry]]; q_minmax; repeat split; lra.
Qed.

Lemma crop_within_witness :
  within (crop (Region (-5) 2 30 8) (Region 0 0 10 10)) (Region 0 0 10 10).
Proof.
  apply (crop_within (Region (-5) 2 30 8) (Region 0 0 10 10)).
  unfold consistent; cbn; split; lra.
Defined.

(** X2: cropping changes nothing of a consistent region that already lies
    within the cropping region. *)
Theorem crop_fixes_inside (r b : region) :
  consistent r → within r b → region_eq (crop r b) r.
Proof.
  unfold consistent, within, region_eq, crop. cbn [x_min x_max y_min y_max].
  intros [Hrx Hry] (Hx0 & Hx1 & Hy0 & Hy1). q_minmax; repeat split; lra.
Qed.

Lemma crop_fixes_inside_witness :
  region_eq (crop (Region 2 3 5 7) (Region 0 0 10 10)) (Region 2 3 5 7).
Proof.
  apply crop_fixes_inside; unfold consistent, within; cbn;
    repeat split; lra.
Defined.

(** X3: cropping twice by the same region is cropping once, whatever the two
    regions are. *)
Theorem crop_idempotent (r b : region) :
  region_eq (crop (crop r b) b) (crop r b).
Proof.
  unfold region_eq, crop. cbn [x_min x_max y_min y_max].
  repeat split; q_minmax; lra.
Qed.

(** X4: for regions that are not empty, the crop is not empty exactly when the
    two regions share an interior point. *)
Theorem crop_not_empty_iff_overlaps (r b : region) :
  empty r = false → empty b = false →
  empty (crop r b) = false ↔ overlaps r b.
Proof.
  intros Hr Hb. rewrite overlaps_iff by assumption.
  rewrite empty_false. apply empty_false in Hr, Hb.
  unfold crop. cbn [x_min x_max y_min y_max].
  destruct Hr as [Hrx Hry], Hb as [Hbx Hby].
  split.
  - intros [Hx Hy]. revert Hx Hy. q_minmax; intros; repeat split; lra.
  - intros (Hx0 & Hx1 & Hy0 & Hy1). q_minmax; split; lra.
Qed.

Lemma crop_not_empty_iff_overlaps_witness :
  empty (crop (Region 5 5 20 20) (Region 0 0 10 10)) = false ↔
  overlaps (Region 5 5 20 20) (Region 0 0 10 10).
Proof.
  apply crop_not_empty_iff_overlaps; reflexivity.
Defined.

Lemma crop_not_empty_inside (r b : region) :
  empty (crop r b) = false → within (crop r b) r ∧ within (crop r b) b.
Proof.
  rewrite empty_false. unfold within, crop. cbn [x_min x_max y_min y_max].
  intros [Hx Hy]. revert Hx Hy. q_minmax; intros; repeat split; lra.
Qed.

(** X5: a crop that is not empty lies within both regions, whatever they are. *)
Theorem crop_not_empty_within (r b : region) :
  empty (crop r b) = false → within (crop r b) r ∧ within (crop r b) b.
Proof. apply crop_not_empty_inside. Qed.

Lemma crop_not_empty_within_witness :
  within (crop (Region 5 5 20 20) (Region 0 0 10 10)) (Region 5 5 20 20) ∧
  within (crop (Region 5 5 20 20) (Region 0 0 10 10)) (Region 0 0 10 10).
Proof. apply crop_not_empty_within. reflexivity. Defined.

(** ** Listing tiles *)

Lemma NoDup_omap {A B} (f : A → option B) (l : list A) :
  (∀ x y z, f x = Some z → f y = Some z → x = y) →
  NoDup l → NoDup (omap f l).
Proof.
  intros Hinj. induction 1 as [| x l Hx Hl IH]; cbn; [constructor |].
  destruct (f x) as [z |] eqn:Hz; [| exact IH].
  constructor; [| exact IH].
  intros Hin. apply list_elem_of_omap in Hin as (y & Hy & Hfy).
  rewrite (Hinj x y z Hz Hfy) in Hx. contradiction.
Qed.

(** The tiles are listed once each, every one with the crop of its box. *)
Lemma list_tiles_NoDup (r largest_region : region) (tile_size : Q)
    (margin : Z) (out : list tile_entry) :
  list_tiles r largest_region tile_size margin = Ok out →
  NoDup out ∧
  ∀ e, e ∈ out →
    tile e = crop (tile_box tile_size (idx e) (idy e)) largest_region ∧
    empty (tile e) = false.
Proof.
  unfold list_tiles. destruct (Qeq_bool tile_size 0); [discriminate |].
  intros [= <-]. split.
  - apply NoDup_bind; [| | apply NoDup_zrange].
    + intros x1 x2 e _ _ H1 H2. unfold list_tiles_column in H1, H2.
      apply list_elem_of_omap in H1 as (y1 & _ & H1).
      apply list_elem_of_omap in H2 as (y2 & _ & H2).
      destruct (empty _) in H1; [discriminate |].
      destruct (empty _) in H2; [discriminate |].
      injection H1 as <-. injection H2 as [= ->]. reflexivity.
    + intros tx _. unfold list_tiles_column.
      apply NoDup_omap; [| apply NoDup_zrange].
      intros y1 y2 e H1 H2.
      destruct (empty _) in H1; [discriminate |].
      destruct (empty _) in H2; [discriminate |].
      injection H1 as <-. injection H2 as [= ->]. reflexivity.
  - intros e He. apply list_elem_of_bind in He as (tx & He & _).
    unfold list_tiles_column in He.
    apply list_elem_of_omap in He as (ty & _ & He).
    destruct (empty _) eqn:Hemp in He; [discriminate |].
    injection He as <-. cbn [tile idx idy]. auto.
Qed.



(** X8: widening the margin by one tile never loses a tile. *)
Theorem list_tiles_margin_monotone (r largest_region : region)
    (tile_size : Q) (margin : Z) :
  (0 < tile_size)%Q →
  ∃ out wider,
    list_tiles r largest_region tile_size margin = Ok out ∧
    list_tiles r largest_region tile_size (margin + 1) = Ok wider ∧
    out ⊆ wider.
Proof.
  intros Hts.
  destruct (list_tiles_elem r largest_region tile_size margin Hts)
    as (out & Hout & Hspec).
  destruct (list_tiles_elem r largest_region tile_size (margin + 1) Hts)
    as (wider & Hwider & Hspec').
  exists out, wider. split; [exact Hout |]. split; [exact Hwider |].
  intros e He. apply Hspec in He as ((Hx0 & Hx1 & Hy0 & Hy1) & Ht & Hne).
  apply Hspec'. split; [| auto].
  unfold tile_in_range in *. unfold Z.sub in *.
  rewrite ?inject_Z_plus, ?inject_Z_opp, ?inject_Z_plus in *.
  change (inject_Z 1) with 1%Q in *.
  repeat split; lra.
Qed.

Lemma list_tiles_margin_monotone_witness :
  ∃ out wider,
    list_tiles (Region 12 12 18 18) (Region 0 0 100 100) 10 0 = Ok out ∧
    list_tiles (Region 12 12 18 18) (Region 0 0 100 100) 10 (0 + 1)
      = Ok wider ∧
    out ⊆ wider.
Proof. apply list_tiles_margin_monotone. lra. Defined.

Lemma Qfloor_div_bounds (a ts : Q) :
  (0 < ts)%Q →
  (inject_Z (Qfloor (a / ts)) * ts <= a)%Q ∧
  (a < inject_Z (Qfloor (a / ts) + 1) * ts)%Q.
Proof.
  intros Hts. split.
  - pose proof (Qdiv_mult_cancel a ts Hts) as Hq.
    pose proof (Qfloor_le (a / ts)) as Hfl.
    rewrite <- Hq at 2. apply Qmult_le_compat_r; [exact Hfl | lra].
  - apply Qfloor_div_le_iff; [exact Hts | lia].
Qed.


(** X9: with no margin the listed tiles still cover the region: every point
    strictly inside both the region and the largest region lies in a listed
    tile. *)
Theorem list_tiles_covers (r largest_region : region) (tile_size : Q)
    (p : point) :
  (0 < tile_size)%Q → interior r p → interior largest_region p →
  ∃ out e,
    list_tiles r largest_region tile_size 0 = Ok out ∧
    e ∈ out ∧ in_region (tile e) p.
Proof.
  intros Hts [Hrx Hry] [Hlx Hly].
  destruct (list_tiles_elem r largest_region tile_size 0 Hts)
    as (out & Hout & Hspec).
  set (tx := Qfloor (p.1 / tile_size)). set (ty := Qfloor (p.2 / tile_size)).
  destruct (Qfloor_div_bounds p.1 tile_size Hts) as [Hx0 Hx1].
  destruct (Qfloor_div_bounds p.2 tile_size Hts) as [Hy0 Hy1].
  fold tx in Hx0, Hx1. fold ty in Hy0, Hy1.
  set (e := TileEntry tx ty (crop (tile_box tile_size tx ty) largest_region)).
  assert (empty (tile e) = false ∧ in_region (tile e) p) as [Hne Hin].
  { rewrite empty_false. unfold in_region, e, crop, tile_box.
    cbn [tile x_min x_max y_min y_max].
    q_minmax; repeat split; lra. }
  exists out, e. split; [exact Hout |]. split; [| exact Hin].
  apply Hspec. split; [| split; [reflexivity | exact Hne]].
  unfold tile_in_range. cbn [idx idy e]. rewrite !Z.add_0_r, !Z.sub_0_r.
  repeat split; lra.
Qed.

Lemma list_tiles_covers_witness :
  ∃ out e,
    list_tiles (Region 5 5 20 12) (Region 0 0 100 100) 10 0 = Ok out ∧
    e ∈ out ∧ in_region (tile e) (10, 7)%Q.
Proof.
  apply list_tiles_covers; [lra | |]; unfold interior; cbn; repeat split; lra.
Defined.




(** ** The grid of corners and the split into cells *)









(** ** Snapping and sizing *)










(** ** Filtering simplices on the edges, again *)

Lemma filtered_idempotent (n0 n1 : nat) (tri_simplices : list simplex)
    (s : Z) :
  selected_in_range tri_simplices s →
  filtered n0 n1 tri_simplices (filtered n0 n1 tri_simplices s)
    = filtered n0 n1 tri_simplices s.
Proof.
  intros Hs. unfold selected_in_range in Hs.
  destruct (decide (s = (-1)%Z)) as [-> | Hne].
  { rewrite !filtered_minus_one. reflexivity. }
  destruct (lookup_lt_is_Some_2 tri_simplices (Z.to_nat s)) as [t Ht]; [lia |].
  rewrite (filtered_simplex n0 n1 tri_simplices s t) by (try assumption; lia).
  destruct (decide (simplex_on_one_side n0 n1 t)) as [Hside | Hside].
  - apply filtered_minus_one.
  - rewrite (filtered_simplex n0 n1 tri_simplices s t)
      by (try assumption; lia).
    rewrite decide_False by exact Hside. reflexivity.
Qed.

(** X17: filtering an array that has been filtered changes nothing. *)
Theorem filter_simplices_on_the_edges_idempotent (n0 n1 : nat)
    (tri_simplices : list simplex) (selected : ndarray Z) :
  (0 < n0)%nat → (0 < n1)%nat → tri_simplices ≠ [] →
  Forall (simplex_in_grid n0 n1) tri_simplices →
  Forall (selected_in_range tri_simplices) (data selected) →
  ∃ out,
    filter_simplices_on_the_edges (n0, n1) tri_simplices selected = Ok out ∧
    filter_simplices_on_the_edges (n0, n1) tri_simplices out = Ok out.
Proof.
  intros Hn0 Hn1 Hne Hgrid Hsel. eexists. split.
  { apply filter_simplices_on_the_edges_run; assumption. }
  rewrite filter_simplices_on_the_edges_run; try assumption.
  - cbn [shape0 shape1 data]. f_equal. f_equal.
    rewrite <- list_fmap_compose. apply list_fmap_ext.
    intros k s Hk. cbn. apply filtered_idempotent.
    rewrite Forall_forall in Hsel. apply Hsel.
    eapply list_elem_of_lookup_2. exact Hk.
  - cbn [data]. apply Forall_fmap. eapply Forall_impl; [exact Hsel |].
    intros s Hs. apply filtered_in_range. exact Hs.
Qed.

Lemma filter_simplices_on_the_edges_idempotent_witness :
  ∃ out,
    filter_simplices_on_the_edges (3, 3)%nat ((0, 1, 2)%nat :: grid3_simplices)
      (NdArray 1 3 [0; 2; -1]%Z) = Ok out ∧
    filter_simplices_on_the_edges (3, 3)%nat ((0, 1, 2)%nat :: grid3_simplices)
      out = Ok out.
Proof.
  apply filter_simplices_on_the_edges_idempotent;
    [lia | lia | discriminate | |].
  - unfold grid3_simplices.
    repeat (constructor; [cbn; lia |]). constructor.
  - cbn [data]. repeat (constructor; [unfold selected_in_range; cbn; lia |]).
    constructor.
Defined.

(** ** Required tiles, again *)

Section RequiredTilesAlignment.
Context {T : Type}.
Implicit Types (acc : required T).
Implicit Types
  (pair : CarsDataset T * CarsDataset T * ndarray point * ndarray point).

Lemma take_tile_aligned (pairs : list _) pair acc acc' (e : tile_entry) :
  pair ∈ pairs → aligned pairs acc →
  take_tile pair.1.1.1 pair.1.1.2 acc e = Ok acc' →
  aligned pairs acc'.
Proof.
  intros Hpair (Hl & Hr & Hall). unfold take_tile. cbn [fst snd].
  fold (in_grid pair.1.1.1 (idy e) (idx e)).
  case_bool_decide as Hin; [| intros [= <-]; repeat split; assumption].
  destruct (ds_getitem pair.1.1.1 (idy e) (idx e)) as [l |] eqn:Hgl;
    [| discriminate].
  destruct (ds_getitem pair.1.1.2 (idy e) (idx e)) as [r |] eqn:Hgr;
    [| discriminate].
  cbn. intros [= <-].
  unfold aligned. cbn [required_point_clouds_left required_point_clouds_right
                       list_indexes].
  rewrite !length_app, Hl, Hr. split; [reflexivity |]. split; [reflexivity |].
  rewrite !zip_with_app by (rewrite ?length_zip_with; lia).
  apply Forall_app. split; [exact Hall |].
  constructor; [| constructor]. exists pair. cbn [fst snd]. auto.
Qed.

Lemma take_tiles_aligned (pairs : list _) pair (tiles : list tile_entry)
    acc acc' :
  pair ∈ pairs → aligned pairs acc →
  for_each (take_tile pair.1.1.1 pair.1.1.2) tiles acc = Ok acc' →
  aligned pairs acc'.
Proof.
  intros Hpair. revert acc. induction tiles as [| e tiles IH]; intros acc Hacc;
    cbn [for_each].
  - intros [= <-]. exact Hacc.
  - destruct (take_tile _ _ acc e) as [acc1 |] eqn:He; [| discriminate].
    cbn [mbind result_bind]. apply IH.
    exact (take_tile_aligned pairs pair acc acc1 e Hpair Hacc He).
Qed.

Lemma take_pair_aligned (pairs : list _) pair (j i : nat) acc acc' :
  pair ∈ pairs → aligned pairs acc →
  take_pair j i acc pair = Ok acc' → aligned pairs acc'.
Proof.
  intros Hpair Hacc. destruct pair as [[[pc_left pc_right] mn] mx] eqn:Epair.
  unfold take_pair.
  destruct (pair_epipolar_region pc_left mn mx j i) as [[[r largest] ts] |];
    [| discriminate].
  cbn [mbind result_bind]. destruct (empty r); [intros [= <-]; exact Hacc |].
  destruct (list_tiles _ _ _ _) as [tiles |]; [| discriminate].
  cbn [mbind result_bind].
  apply (take_tiles_aligned pairs (pc_left, pc_right, mn, mx));
    assumption.
Qed.

Lemma take_pairs_aligned (pairs some : list _) (j i : nat) acc acc' :
  some ⊆ pairs → aligned pairs acc →
  for_each (take_pair j i) some acc = Ok acc' → aligned pairs acc'.
Proof.
  revert acc. induction some as [| pair some IH]; intros acc Hsub Hacc;
    cbn [for_each].
  - intros [= <-]. exact Hacc.
  - destruct (take_pair j i acc pair) as [acc1 |] eqn:Hp; [| discriminate].
    cbn [mbind result_bind]. apply IH.
    + intros p Hp'. apply Hsub. right. exact Hp'.
    + apply (take_pair_aligned pairs pair j i acc acc1);
        [apply Hsub; left | exact Hacc | exact Hp].
Qed.

(** X18: the lists the function returns are aligned: entry [k] of the left list
    and entry [k] of the right list are the tiles found, in the left and in
    the right dataset of one and the same pair, at the address that is entry
    [k] of the index list, an address of that pair's tiling grid. *)
Theorem required_tiles_aligned (terrain_grid : ndarray point)
    (row col : nat) (lefts rights : list (CarsDataset T))
    (mins maxs : list (ndarray point))
    (tr : region) (l r : list T) (rank : Z) (idxs : list (Z * Z)) :
  get_corresponding_tiles_row_col terrain_grid row col lefts rights mins maxs
    = Ok (tr, l, r, rank, idxs) →
  ∀ (k : nat) (id_y id_x : Z), idxs !! k = Some (id_y, id_x) →
    ∃ pair left right,
      pair ∈ zip4 lefts rights mins maxs ∧
      in_grid pair.1.1.1 id_y id_x ∧
      l !! k = Some left ∧ r !! k = Some right ∧
      ds_getitem pair.1.1.1 id_y id_x = Ok left ∧
      ds_getitem pair.1.1.2 id_y id_x = Ok right.
Proof.
  unfold get_corresponding_tiles_row_col.
  destruct (getitem terrain_grid row col) as [p00 |]; [| discriminate].
  destruct (getitem terrain_grid (row + 1) (col + 1)) as [p11 |];
    [| discriminate].
  cbn [mbind result_bind].
  destruct (for_each _ _ _) as [acc |] eqn:Hloop; [| discriminate].
  cbn [mbind result_bind mret result_ret]. intros [= <- <- <- <- <-].
  apply (take_pairs_aligned (zip4 lefts rights mins maxs)) in Hloop;
    [| done | repeat split; constructor].
  destruct Hloop as (Hl & Hr & Hall).
  intros k id_y id_x Hk.
  destruct (lookup_lt_is_Some_2 (required_point_clouds_left acc) k)
    as [left Hleft]; [rewrite Hl; eapply lookup_lt_Some; exact Hk |].
  destruct (lookup_lt_is_Some_2 (required_point_clouds_right acc) k)
    as [right Hright]; [rewrite Hr; eapply lookup_lt_Some; exact Hk |].
  rewrite Forall_lookup in Hall.
  specialize (Hall k (id_y, id_x, left, right)).
  rewrite !lookup_zip_with, Hk, Hleft, Hright in Hall.
  destruct (Hall eq_refl) as (pair & Hpair & Hin & Hgl & Hgr).
  exists pair, left, right. auto 7.
Qed.
End RequiredTilesAlignment.

Lemma required_tiles_aligned_witness :
  ∃ pair left right,
    pair ∈ zip4 [example_dataset] [example_dataset]
             [example_points_inside] [example_points_inside] ∧
    in_grid pair.1.1.1 2 1 ∧
    [(0, 0); (1, 0); (2, 0); (0, 1); (1, 1); (2, 1); (0, 2); (1, 2); (2, 2)]%Z
      !! 5%nat = Some left ∧
    [(0, 0); (1, 0); (2, 0); (0, 1); (1, 1); (2, 1); (0, 2); (1, 2); (2, 2)]%Z
      !! 5%nat = Some right ∧
    ds_getitem pair.1.1.1 2 1 = Ok left ∧
    ds_getitem pair.1.1.2 2 1 = Ok right.
Proof.
  apply (required_tiles_aligned _ _ _ _ _ _ _ _ _ _ _ _ example_inside_run
           5%nat 2%Z 1%Z).
  reflexivity.
Defined.

Lemma pair_indexes_NoDup {T : Type} (j i : nat)
    (pair : CarsDataset T * CarsDataset T * ndarray point * ndarray point) :
  NoDup (pair_indexes j i pair).
Proof.
  destruct pair as [[[pc_left pc_right] mn] mx]. unfold pair_indexes.
  destruct (pair_epipolar_region pc_left mn mx j i) as [[[r largest] ts] |];
    [| constructor].
  destruct (empty r); [constructor |].
  destruct (list_tiles _ _ _ _) as [tiles |] eqn:Htiles; [| constructor].
  apply list_tiles_NoDup in Htiles as [Hnd Hdet].
  unfold kept_indexes. apply NoDup_fmap_2_strong; [| apply NoDup_filter, Hnd].
  intros e1 e2 H1 H2 [= Hy Hx].
  apply list_elem_of_filter in H1 as [_ H1].
  apply list_elem_of_filter in H2 as [_ H2].
  destruct (Hdet e1 H1) as [Ht1 _], (Hdet e2 H2) as [Ht2 _].
  destruct e1, e2. cbn in *. congruence.
Qed.

(** X19: no pair asks twice for the same tile: the index list is made of one
    run per pair, in the order of the pairs; the addresses of a run are
    addresses of the tiling grid of its pair, and none occurs twice in the
    run. *)
Theorem required_tiles_no_duplicate {T : Type} (terrain_grid : ndarray point)
    (row col : nat) (lefts rights : list (CarsDataset T))
    (mins maxs : list (ndarray point))
    (tr : region) (l r : list T) (rank : Z) (idxs : list (Z * Z)) :
  get_corresponding_tiles_row_col terrain_grid row col lefts rights mins maxs
    = Ok (tr, l, r, rank, idxs) →
  ∃ per_pair : list (list (Z * Z)),
    idxs = concat per_pair ∧
    Forall2 (λ pair ids,
               NoDup ids ∧
               Forall (λ address, in_grid pair.1.1.1 address.1 address.2) ids)
      (zip4 lefts rights mins maxs) per_pair.
Proof.
  intros Hrun. apply get_corresponding_tiles_row_col_Ok in Hrun as (-> & _).
  eexists. split; [reflexivity |].
  apply Forall2_fmap_r, Forall2_same_length_lookup.
  split; [reflexivity |].
  intros k pair pair' Hk Hk'. rewrite Hk in Hk'. injection Hk' as <-.
  split; [apply pair_indexes_NoDup |].
  eapply Forall_impl; [apply pair_indexes_in_grid |].
  intros [id_y id_x] Hin. exact Hin.
Qed.

Lemma required_tiles_no_duplicate_witness :
  ∃ per_pair : list (list (Z * Z)),
    [(0, 0); (1, 0); (2, 0); (0, 1); (1, 1); (2, 1); (0, 2); (1, 2); (2, 2)]%Z
      = concat per_pair ∧
    Forall2 (λ pair ids,
               NoDup ids ∧
               Forall (λ address, in_grid pair.1.1.1 address.1 address.2) ids)
      (zip4 [example_dataset] [example_dataset]
            [example_points_inside] [example_points_inside]) per_pair.
Proof.
  exact (required_tiles_no_duplicate _ _ _ _ _ _ _ _ _ _ _ _
           example_inside_run).
Defined.

(** ** Strings *)

Lemma string_app_cons (x : Ascii.ascii) (a b : string) :
  String x a +:+ b = String x (a +:+ b).
Proof. reflexivity. Qed.

Lemma string_app_assoc (a b c : string) : (a +:+ b) +:+ c = a +:+ (b +:+ c).
Proof.
  induction a as [| x a IH]; [reflexivity |].
  rewrite !string_app_cons. by f_equal.
Qed.

Lemma string_app_nil_r (a : string) : a +:+ "" = a.
Proof.
  induction a as [| x a IH]; [reflexivity |].
  rewrite string_app_cons. by f_equal.
Qed.

Lemma prefix_app (n b : string) : String.prefix n (n +:+ b) = true.
Proof.
  induction n as [| x n IH]; [by destruct b |].
  rewrite string_app_cons. simpl.
  destruct (Ascii.ascii_dec x x); [exact IH | congruence].
Qed.

Lemma str_in_cons (n : string) (c : Ascii.ascii) (s : string) :
  str_in n (String c s) = String.prefix n (String c s) || str_in n s.
Proof. reflexivity. Qed.

Lemma str_in_prefix (n s : string) :
  String.prefix n s = true → str_in n s = true.
Proof. intros H. destruct s; cbn [str_in]; rewrite H; reflexivity. Qed.

Lemma str_in_app_r (n a b : string) :
  str_in n b = true → str_in n (a +:+ b) = true.
Proof.
  intros H. induction a as [| x a IH]; [exact H |].
  rewrite string_app_cons. cbn [str_in]. rewrite IH. apply orb_true_r.
Qed.

(** The needle occurs in every string it is a part of. *)
Lemma str_in_middle (n a b : string) : str_in n (a +:+ n +:+ b) = true.
Proof. apply str_in_app_r, str_in_prefix, prefix_app. Qed.

(** A prefix test does not look past a character foreign to the needle. *)
Lemma prefix_app_foreign (n u : string) (c : Ascii.ascii) (t : string) :
  char_in c n = false →
  String.prefix n (u +:+ String c t) = String.prefix n u.
Proof.
  revert u. induction n as [| a n IH]; intros u Hc; [by destruct u |].
  simpl in Hc. apply orb_false_elim in Hc as [Hca Hc].
  apply bool_decide_eq_false in Hca.
  destruct u as [| b u]; [change ("" +:+ String c t) with (String c t) |
                           rewrite string_app_cons]; simpl.
  - destruct (Ascii.ascii_dec a c); [congruence | reflexivity].
  - destruct (Ascii.ascii_dec a b); [apply IH, Hc | reflexivity].
Qed.

Lemma str_in_app_foreign (n u : string) (c : Ascii.ascii) (t : string) :
  n ≠ "" → char_in c n = false → str_in n (String c t) = false →
  str_in n (u +:+ String c t) = str_in n u.
Proof.
  intros Hn Hc Ht. induction u as [| b u IH].
  - change ("" +:+ String c t) with (String c t).
    rewrite Ht. destruct n; [done | reflexivity].
  - rewrite string_app_cons. cbn [str_in]. rewrite IH.
    rewrite <- string_app_cons, prefix_app_foreign by exact Hc. reflexivity.
Qed.

Lemma str_in_disjoint (n s : string) :
  n ≠ "" → disjoint_from n s = true → str_in n s = false.
Proof.
  intros Hn. destruct n as [| a n]; [done |]. clear Hn.
  induction s as [| c s IH]; intros Hs; [reflexivity |].
  cbn [disjoint_from string_forall] in Hs.
  apply andb_true_iff in Hs as [Hc Hs]. cbn [str_in]. rewrite (IH Hs).
  rewrite orb_false_r. simpl.
  destruct (Ascii.ascii_dec a c) as [-> |]; [| reflexivity].
  simpl in Hc. rewrite bool_decide_eq_true_2 in Hc by reflexivity. done.
Qed.

(** Appending characters foreign to the needle adds no occurrence. *)
Lemma str_in_app_disjoint (n u s : string) :
  n ≠ "" → disjoint_from n s = true → str_in n (u +:+ s) = str_in n u.
Proof.
  intros Hn Hs. destruct s as [| c s]; [by rewrite string_app_nil_r |].
  apply str_in_app_foreign; [exact Hn | | apply str_in_disjoint; assumption].
  cbn [disjoint_from string_forall] in Hs.
  apply andb_true_iff in Hs as [Hc _]. by apply negb_true_iff.
Qed.

(** The decimal writing of an integer is made of digits and a sign. *)
Lemma pretty_N_go_chars (P : Ascii.ascii → bool) (x : N) (s : string) :
  string_forall P "0123456789" = true →
  string_forall P s = true → string_forall P (pretty_N_go x s) = true.
Proof.
  intros HP. revert s. induction (N.lt_wf_0 x) as [x _ IH]; intros s Hs.
  assert (x = 0 ∨ 0 < x)%N as [-> | Hx] by lia; [exact Hs |].
  rewrite pretty_N_go_step by exact Hx. apply IH; [by apply N.div_lt |].
  cbn [string_forall]. rewrite Hs, andb_true_r.
  cbn [string_forall] in HP.
  repeat (apply andb_true_iff in HP as [? HP]).
  unfold pretty_N_char. repeat case_match; assumption.
Qed.

Lemma pretty_Z_chars (P : Ascii.ascii → bool) (z : Z) :
  string_forall P "-0123456789" = true → string_forall P (pretty z) = true.
Proof.
  intros HP. cbn [string_forall] in HP.
  apply andb_true_iff in HP as [Hdash HP].
  assert (∀ p : positive, string_forall P (pretty p) = true) as Hpos.
  { intros p. unfold pretty, pretty_positive, pretty, pretty_N.
    case_decide; [done |]. apply pretty_N_go_chars; [exact HP | reflexivity]. }
  destruct z as [| p | p]; unfold pretty, pretty_Z.
  - cbn [string_forall] in *. repeat (apply andb_true_iff in HP as [? HP]).
    by rewrite andb_true_r.
  - apply Hpos.
  - change ("-" +:+ pretty p) with (String "-"%char (pretty p)).
    cbn [string_forall]. rewrite Hdash. apply Hpos.
Qed.

(** ** Paths *)

Lemma posix_join_relative (a b : string) :
  String.prefix "/" b = false →
  posix_join a b = a +:+ b ∨ posix_join a b = a +:+ "/" +:+ b.
Proof.
  intros Hb. unfold posix_join. rewrite Hb.
  destruct (_ || _); [left | right]; reflexivity.
Qed.

(** For a fixed directory, relative components are joined injectively. *)
Lemma posix_join_inj (a b b' : string) :
  String.prefix "/" b = false → String.prefix "/" b' = false →
  posix_join a b = posix_join a b' → b = b'.
Proof.
  intros Hb Hb'. unfold posix_join. rewrite Hb, Hb'.
  destruct (_ || _); intros H.
  - by apply String.app_inj in H.
  - apply String.app_inj in H. by injection H.
Qed.

(** A relative component whose first character is foreign to the needle,
    and that does not hold the needle, adds no occurrence to the directory's. *)
Lemma str_in_posix_join (n a : string) (c : Ascii.ascii) (t : string) :
  n ≠ "" → char_in c n = false → char_in "/"%char n = false →
  String.prefix "/" (String c t) = false →
  str_in n (String c t) = false →
  str_in n (posix_join a (String c t)) = str_in n a.
Proof.
  intros Hn Hc Hsep Hrel Ht.
  destruct (posix_join_relative a (String c t) Hrel) as [-> | ->].
  - by apply str_in_app_foreign.
  - change (a +:+ "/" +:+ String c t)
      with (a +:+ String "/"%char (String c t)).
    apply str_in_app_foreign; [done | done |].
    rewrite str_in_cons, Ht, orb_false_r.
    change (String "/"%char (String c t)) with ("/" +:+ String c t).
    rewrite prefix_app_foreign by exact Hc.
    destruct n as [| x n]; [done |]. simpl in Hsep |- *.
    apply orb_false_elim in Hsep as [Hx _].
    apply bool_decide_eq_false in Hx.
    destruct (Ascii.ascii_dec x "/"%char); [congruence | reflexivity].
Qed.

(** ** The wrappers' task functions *)

Section WrapperCallsFacts.
Context {Func Val Arg Res : Type}.
Variable call : Func → list Arg → gmap string (kwarg Func Val) → result Res.

(** X20: the function and the keyword arguments [WrapperNone] hands out run the
    task function itself: [none_wrapper_fun] calls it on the positional
    arguments and on the caller's keyword arguments, an entry the caller had
    under ["fun"] apart. *)
Theorem none_wrapper_round_trip (func : Func)
    (kwargs : gmap string (kwarg Func Val)) (nout : Z) (argv : list Arg) :
  let out := WrapperNone_get_function_and_kwargs func kwargs nout in
  out.1 = none_wrapper_fun ∧
  run_none_wrapper_fun call argv out.2 = call func argv (delete "fun" kwargs) ∧
  (kwargs !! "fun" = None →
   run_none_wrapper_fun call argv out.2 = call func argv kwargs).
Proof.
  cbn zeta. unfold WrapperNone_get_function_and_kwargs, run_none_wrapper_fun,
    kwargs_getitem. cbn [fst snd].
  rewrite lookup_insert_eq. cbn [mbind result_bind py_call].
  rewrite delete_insert_eq.
  split; [reflexivity |]. split; [reflexivity |].
  intros Hfun. by rewrite delete_id.
Qed.

(** X21: what [disk_wrapper_fun] reads back from the keyword arguments
    [WrapperDisk] hands out: the ids issued for the call, the task function,
    the wrapper's directory, and the caller's keyword arguments without the
    three names of the wrapper. *)
Theorem disk_wrapper_fun_args_round_trip (self : WrapperDisk) (func : Func)
    (kwargs : gmap string (kwarg Func Val)) (nout : Z) :
  let out := get_function_and_kwargs self func kwargs nout in
  out.2.1 = disk_wrapper_fun ∧
  disk_wrapper_fun_args out.2.2
    = Ok (KwIdList (zrange (current_object_id self)
                      (current_object_id self + nout)),
          KwFun func, KwStr (tmp_dir self),
          delete "tmp_dir" (delete "fun" (delete "id_list" kwargs))) ∧
  (kwargs !! "id_list" = None → kwargs !! "fun" = None →
   kwargs !! "tmp_dir" = None →
   delete "tmp_dir" (delete "fun" (delete "id_list" kwargs)) = kwargs).
Proof.
  cbn zeta. unfold get_function_and_kwargs. rewrite issue_id_iter.
  cbn [fst snd tmp_dir current_object_id app].
  split; [reflexivity |]. split.
  - unfold disk_wrapper_fun_args, kwargs_getitem.
    set (ids := zrange _ _). set (new_kwargs := <["tmp_dir" := _]> _).
    assert (new_kwargs !! "id_list" = Some (KwIdList ids)) as ->.
    { subst new_kwargs. rewrite !lookup_insert_ne by done.
      apply lookup_insert_eq. }
    assert (new_kwargs !! "fun" = Some (KwFun func)) as ->.
    { subst new_kwargs. rewrite lookup_insert_ne by done.
      apply lookup_insert_eq. }
    assert (new_kwargs !! "tmp_dir" = Some (KwStr (tmp_dir self))) as ->
      by apply lookup_insert_eq.
    cbn [mbind result_bind]. subst ids new_kwargs.
    do 2 f_equal.
    + do 3 f_equal. unfold zrange. do 2 f_equal. lia.
    + apply map_eq. intros k.
      destruct (decide (k = "tmp_dir")) as [-> | Ht];
        [by rewrite !lookup_delete_eq |].
      rewrite !(lookup_delete_ne _ "tmp_dir") by done.
      destruct (decide (k = "fun")) as [-> | Hf];
        [by rewrite !lookup_delete_eq |].
      rewrite !(lookup_delete_ne _ "fun") by done.
      destruct (decide (k = "id_list")) as [-> | Hi];
        [by rewrite !lookup_delete_eq |].
      rewrite !(lookup_delete_ne _ "id_list") by done.
      by rewrite !lookup_insert_ne.
  - intros Hi Hf Ht. by rewrite !delete_id by (by rewrite ?lookup_delete_ne).
Qed.

End WrapperCallsFacts.

Lemma none_wrapper_round_trip_witness :
  run_none_wrapper_fun (λ (f : unit) (argv : list Z) kw, Ok (argv, kw)) [1%Z]
    (WrapperNone_get_function_and_kwargs tt {["x" := KwVal 2%Z]} 1).2
  = Ok ([1%Z], {["x" := KwVal (Func := unit) 2%Z]}).
Proof.
  apply (none_wrapper_round_trip (λ (f : unit) (argv : list Z) kw,
                                    Ok (argv, kw))
           tt {["x" := KwVal 2%Z]} 1 [1%Z]).
  reflexivity.
Defined.

Lemma disk_wrapper_fun_args_round_trip_witness :
  disk_wrapper_fun_args
    (get_function_and_kwargs
       (WrapperDisk_init example_path_join "out") tt
       {["x" := KwVal (Func := unit) 2%Z]} 2).2.2
  = Ok (KwIdList [0; 1]%Z, KwFun tt, KwStr "out/tmp",
        {["x" := KwVal (Func := unit) 2%Z]}).
Proof.
  destruct (disk_wrapper_fun_args_round_trip
              (WrapperDisk_init example_path_join "out") tt
              {["x" := KwVal (Func := unit) 2%Z]} 2) as (_ & Hargs & Hsame).
  rewrite Hargs, Hsame by reflexivity. reflexivity.
Defined.

(** ** Objects dumped to disk and their paths *)

(** Induction on an object and, in a list or a tuple, on its items. *)
Lemma pyobj_nested_ind {Dataset DataFrame Opaque : Type}
    (P : pyobj Dataset DataFrame Opaque → Prop)
    (Hnone : P PyNone) (Hstr : ∀ s, P (PyStr s))
    (Hlist : ∀ l, Forall P l → P (PyList l))
    (Htuple : ∀ l, Forall P l → P (PyTuple l))
    (Hdataset : ∀ d, P (PyDataset d)) (Hframe : ∀ d, P (PyDataFrame d))
    (Hopaque : ∀ v, P (PyOpaque v)) : ∀ obj, P obj.
Proof.
  fix go 1.
  intros [| s | l | l | d | d | v];
    [exact Hnone | apply Hstr | | | apply Hdataset | apply Hframe
     | apply Hopaque].
  - apply Hlist. induction l as [| x l IH]; constructor; [apply go | exact IH].
  - apply Htuple. induction l as [| x l IH]; constructor; [apply go | exact IH].
Qed.

Section WrapperObjectsFacts.
Context {Dataset DataFrame Opaque Disk TileError : Type}.
Variable load_single_tile :
  dataset_type → string → Disk →
  outcome TileError (pyobj Dataset DataFrame Opaque).
Variable save_single_tile :
  dataset_type → pyobj Dataset DataFrame Opaque → string → Disk →
  outcome TileError Disk.
Variable foreign_getitem :
  pyobj Dataset DataFrame Opaque → nat →
  outcome TileError (pyobj Dataset DataFrame Opaque).

Lemma create_path_tile (o : pyobj Dataset DataFrame Opaque)
    (tmp_dir : string) (id_num : Z) :
  is_tile o = true →
  create_path (TileError := TileError) o tmp_dir id_num
    = Return (tile_path o tmp_dir id_num).
Proof. destruct o; intros Ht; try discriminate Ht; reflexivity. Qed.

Lemma tile_name_relative (o : pyobj Dataset DataFrame Opaque) (rest : string) :
  String.prefix "/" (tile_name o +:+ rest) = false.
Proof. destruct o; reflexivity. Qed.

Lemma tile_path_marked (o : pyobj Dataset DataFrame Opaque)
    (tmp_dir rest : string) :
  str_in (tile_name o) (posix_join tmp_dir (tile_name o +:+ rest)) = true.
Proof.
  destruct (posix_join_relative tmp_dir (tile_name o +:+ rest)
              (tile_name_relative o rest)) as [-> | ->].
  - apply str_in_middle.
  - rewrite <- (string_app_assoc tmp_dir "/"). apply str_in_middle.
Qed.

Lemma pretty_disjoint_from (n : string) (z : Z) :
  disjoint_from n "-0123456789" = true → disjoint_from n (pretty z) = true.
Proof. apply pretty_Z_chars. Qed.

(** The path of a [DataFrame] holds the name of the arrays exactly when the
    directory does. *)
Lemma sparse_path_dense (tmp_dir : string) (id_num : Z) :
  str_in DENSE_NAME (posix_join tmp_dir (SPARSE_NAME +:+ "_" +:+ pretty id_num))
    = str_in DENSE_NAME tmp_dir.
Proof.
  change (SPARSE_NAME +:+ "_" +:+ pretty id_num)
    with (String "S"%char ("parseDO_" +:+ pretty id_num)).
  apply str_in_posix_join; try reflexivity; [done |].
  change (String "S"%char ("parseDO_" +:+ pretty id_num))
    with ("SparseDO_" +:+ pretty id_num).
  rewrite str_in_app_disjoint; [reflexivity | done |].
  apply pretty_disjoint_from. reflexivity.
Qed.

Lemma tile_path_is_dumped (o : pyobj Dataset DataFrame Opaque)
    (tmp_dir : string) (id_num : Z) :
  is_tile o = true →
  is_dumped_object (PyStr (tile_path o tmp_dir id_num)
                    : pyobj Dataset DataFrame Opaque) = true.
Proof.
  intros Ht. cbn [is_dumped_object]. unfold tile_path.
  pose proof (tile_path_marked o tmp_dir ("_" +:+ pretty id_num)) as Hin.
  destruct o; try discriminate Ht; cbn [tile_name] in *; rewrite Hin;
    [reflexivity | apply orb_true_r].
Qed.

Lemma load_tile_path (o : pyobj Dataset DataFrame Opaque) (tmp_dir : string)
    (id_num : Z) (disk : Disk) :
  is_tile o = true →
  load load_single_tile (Some (tile_path o tmp_dir id_num)) disk
    = load_single_tile (reader_of o tmp_dir) (tile_path o tmp_dir id_num) disk.
Proof.
  intros Ht. unfold tile_path.
  pose proof (tile_path_marked o tmp_dir ("_" +:+ pretty id_num)) as Hin.
  unfold load. destruct o; try discriminate Ht; cbn [tile_name reader_of] in *.
  - rewrite Hin. reflexivity.
  - rewrite sparse_path_dense, Hin.
    destruct (str_in DENSE_NAME tmp_dir); reflexivity.
Qed.

(** X22: the path [create_path] makes for a [Dataset] or a [DataFrame] is
    recognised by [is_dumped_object], whatever the directory and the id. *)
Theorem created_path_is_handle (o : pyobj Dataset DataFrame Opaque)
    (tmp_dir : string) (id_num : Z) :
  is_tile o = true →
  ∃ p, create_path (TileError := TileError) o tmp_dir id_num = Return p ∧
       is_dumped_object (PyStr p : pyobj Dataset DataFrame Opaque) = true.
Proof.
  intros Ht. eexists. split; [apply create_path_tile, Ht |].
  apply tile_path_is_dumped, Ht.
Qed.

(** X23: [load] reads the path of a dumped [Dataset] with the arrays reader. It
    reads the path of a dumped [DataFrame] with the points reader exactly when
    the directory does not hold the name of the arrays, which [load] tests
    first; otherwise with the arrays reader. *)
Theorem load_created_path (o : pyobj Dataset DataFrame Opaque)
    (tmp_dir : string) (id_num : Z) (disk : Disk) :
  is_tile o = true →
  ∃ p, create_path (TileError := TileError) o tmp_dir id_num = Return p ∧
       load load_single_tile (Some p) disk
         = load_single_tile (reader_of o tmp_dir) p disk.
Proof.
  intros Ht. eexists. split; [apply create_path_tile, Ht |].
  apply load_tile_path, Ht.
Qed.

(** Under one directory, the paths of two tile objects are equal only for
    equal ids. *)
Lemma create_path_inj (o1 o2 : pyobj Dataset DataFrame Opaque)
    (tmp_dir : string) (id1 id2 : Z) :
  is_tile o1 = true → is_tile o2 = true →
  create_path (TileError := TileError) o1 tmp_dir id1
    = create_path o2 tmp_dir id2 →
  id1 = id2.
Proof.
  intros H1 H2. rewrite !create_path_tile by assumption.
  unfold tile_path.
  intros [= Hp]. apply posix_join_inj in Hp; try apply tile_name_relative.
  destruct o1; try discriminate H1; destruct o2; try discriminate H2;
    cbn [tile_name] in Hp; try discriminate Hp.
  - apply (inj (String.append DENSE_NAME)), (inj (String.append "_")) in Hp.
    by apply (inj pretty).
  - apply (inj (String.append SPARSE_NAME)), (inj (String.append "_")) in Hp.
    by apply (inj pretty).
Qed.

(** X24: no two objects a wrapper dumps share a path: over any sequence of calls
    on one wrapper, the paths made from the issued ids, each for a [Dataset]
    or a [DataFrame], are pairwise distinct. *)
Theorem dumped_paths_distinct {Func Val : Type}
    (path_join : string → string → string) (dir : string)
    (calls : list (Func * gmap string (kwarg Func Val) * Z))
    (objs : Z → pyobj Dataset DataFrame Opaque) :
  Forall (λ c, (0 ≤ c.2)%Z) calls →
  (∀ id_num, is_tile (objs id_num) = true) →
  let res := run_calls (WrapperDisk_init path_join dir) calls in
  NoDup ((λ id_num, create_path (TileError := TileError) (objs id_num)
                      (tmp_dir res.1) id_num)
           <$> concat (issued_ids <$> res.2)).
Proof.
  intros Hcalls Hobjs res.
  destruct (run_calls_ids (WrapperDisk_init path_join dir) calls Hcalls)
    as (_ & Hcat & _).
  fold res in Hcat. rewrite Hcat.
  apply NoDup_fmap_2; [| apply NoDup_zrange].
  intros id1 id2. apply create_path_inj; apply Hobjs.
Qed.

Lemma mapM_cons {A B : Type} (f : A → outcome TileError B) (x : A)
    (l : list A) :
  mapM f (x :: l) = y ← f x; k ← mapM f l; mret (y :: k).
Proof. reflexivity. Qed.

Lemma load_arg_handle_free (disk : Disk)
    (arg : pyobj Dataset DataFrame Opaque) :
  handle_free arg = true → load_arg load_single_tile disk arg = Return arg.
Proof.
  induction arg as [| s | l IH | l _ | d | d | v] using pyobj_nested_ind;
    intros Hfree; try reflexivity.
  - cbn [handle_free] in Hfree. cbn [load_arg].
    apply negb_true_iff in Hfree. rewrite Hfree. reflexivity.
  - cbn [handle_free] in Hfree. cbn [load_arg].
    assert (mapM (load_arg load_single_tile disk) l = Return l) as ->;
      [| reflexivity].
    induction IH as [| x l Hx _ IHl]; [reflexivity |].
    cbn [forallb] in Hfree. apply andb_true_iff in Hfree as [Hfx Hfl].
    rewrite mapM_cons, (Hx Hfx), (IHl Hfl). reflexivity.
Qed.

(** X25: arguments without the path of a dumped object, at any depth of lists,
    go through [load_args] unchanged, and nothing is read from the disk. *)
Theorem load_args_handle_free (args : list (pyobj Dataset DataFrame Opaque))
    (disk : Disk) :
  forallb handle_free args = true →
  load_args load_single_tile args disk = Return args.
Proof.
  unfold load_args. induction args as [| x l IH]; intros Hfree;
    [reflexivity |].
  cbn [forallb] in Hfree. apply andb_true_iff in Hfree as [Hfx Hfl].
  rewrite mapM_cons, (load_arg_handle_free disk x Hfx), (IH Hfl). reflexivity.
Qed.

(** X26: [load_kwargs] keeps the keys and their order, and leaves every value
    that is not itself the path of a dumped object as it is: a list is not
    searched, unlike in [load_args]. *)
Theorem load_kwargs_keeps
    (kwargs new_kwargs : list (string * pyobj Dataset DataFrame Opaque))
    (disk : Disk) :
  load_kwargs load_single_tile kwargs disk = Return new_kwargs →
  new_kwargs.*1 = kwargs.*1 ∧
  ∀ (k : nat) (key : string) (v : pyobj Dataset DataFrame Opaque),
    kwargs !! k = Some (key, v) → is_dumped_object v = false →
    new_kwargs !! k = Some (key, v).
Proof.
  unfold load_kwargs. revert new_kwargs.
  induction kwargs as [| [key0 v0] l IH]; intros new_kwargs Hrun.
  - injection Hrun as <-. split; [reflexivity |]. intros k key v Hk. done.
  - rewrite mapM_cons in Hrun.
    match type of Hrun with
    | (mbind _ ?m) = _ => destruct m as [[key1 v1] |] eqn:Hhead
    end; [| discriminate Hrun].
    cbn [mbind outcome_bind] in Hrun.
    destruct (mapM _ l) as [new_l |] eqn:Htail; [| discriminate Hrun].
    cbn [mbind outcome_bind mret outcome_ret] in Hrun.
    injection Hrun as <-.
    destruct (IH new_l eq_refl) as [Hkeys Hvals].
    assert (key1 = key0 ∧ (is_dumped_object v0 = false → v1 = v0))
      as [-> Hv0].
    { destruct v0; try (injection Hhead as <- <-; by split).
      destruct (is_dumped_object (PyStr s)) eqn:Hd.
      - destruct (load _ _ _); [| discriminate Hhead].
        cbn [mbind outcome_bind] in Hhead. injection Hhead as <- <-.
        by split.
      - injection Hhead as <- <-. by split. }
    split; [cbn; by rewrite Hkeys |].
    intros [| k] key v Hk Hd; cbn in Hk |- *.
    + injection Hk as <- <-. by rewrite Hv0.
    + by apply Hvals.
Qed.

Lemma dump_one (res : pyobj Dataset DataFrame Opaque) (tmp_dir : string)
    (id_num : Z) (p : string) (disk disk' : Disk) :
  create_path (TileError := TileError) res tmp_dir id_num = Return p →
  dump_single_object save_single_tile res p disk = Return disk' →
  is_tile res = true ∧ p = tile_path res tmp_dir id_num ∧
  save_single_tile (writer_of res) res p disk = Return disk'.
Proof.
  intros Hp Hd. destruct res; try discriminate Hd.
  - injection Hp as <-. by repeat split.
  - injection Hp as <-. by repeat split.
Qed.

(** X27: the object [dump] gives back for one id is read back by [load_args] as
    the object that was dumped, as long as the writers and the readers of
    the tiles agree; for a [DataFrame] the directory must not hold the name
    of the arrays. *)
Theorem dump_load_round_trip (res out : pyobj Dataset DataFrame Opaque)
    (tmp_dir : string) (id_num : Z) (disk disk' : Disk) :
  tiles_round_trip save_single_tile load_single_tile →
  (∀ d, res = PyDataFrame d → str_in DENSE_NAME tmp_dir = false) →
  dump save_single_tile foreign_getitem res tmp_dir [id_num] disk
    = Return (out, disk') →
  load_args load_single_tile [out] disk' = Return [res].
Proof.
  intros Hcontract Hdir Hdump. unfold dump in Hdump.
  cbn [length bool_decide decide_rel] in Hdump.
  rewrite bool_decide_eq_false_2 in Hdump by (cbn; lia).
  cbn [lookup list_lookup] in Hdump.
  destruct (create_path (TileError := TileError) res tmp_dir id_num)
    as [p |] eqn:Hp;
    [| discriminate Hdump].
  cbn [mbind outcome_bind] in Hdump.
  destruct (dump_single_object _ res p disk) as [disk1 |] eqn:Hd;
    [| discriminate Hdump].
  cbn [mbind outcome_bind] in Hdump. injection Hdump as <- <-.
  destruct (dump_one res tmp_dir id_num p disk disk1 Hp Hd)
    as (Htile & -> & Hsave).
  unfold load_args. rewrite mapM_cons. cbn [load_arg].
  rewrite (tile_path_is_dumped res tmp_dir id_num Htile).
  rewrite (load_tile_path res tmp_dir id_num disk1 Htile).
  assert (reader_of res tmp_dir = writer_of res) as ->.
  { destruct res; try discriminate Htile; [reflexivity |].
    cbn [reader_of writer_of]. by rewrite (Hdir d). }
  rewrite (Hcontract _ _ _ _ _ Hsave). reflexivity.
Qed.

Lemma dump_round_returns (res : pyobj Dataset DataFrame Opaque)
    (tmp_dir : string) (paths paths' : list (pyobj Dataset DataFrame Opaque))
    (disk disk' : Disk) (i : nat) (id_num : Z) :
  dump_round save_single_tile foreign_getitem res tmp_dir (paths, disk)
    (i, id_num) = Return (paths', disk') →
  ∃ res_i out_i,
    obj_getitem foreign_getitem res i = Return res_i ∧
    dumped_as res_i tmp_dir id_num out_i ∧ paths' = paths ++ [out_i].
Proof.
  unfold dump_round. intros Hrun.
  destruct (obj_getitem foreign_getitem res i) as [res_i |];
    [| discriminate Hrun].
  cbn [mbind outcome_bind] in Hrun. exists res_i.
  assert (res_i = PyNone ∧ paths' = paths ++ [PyNone] ∨
          ∃ p disk1,
            create_path (TileError := TileError) res_i tmp_dir id_num
              = Return p ∧
            dump_single_object save_single_tile res_i p disk = Return disk1 ∧
            paths' = paths ++ [PyStr p])
    as [[-> ->] | (p & disk1 & Hp & Hd & ->)].
  { assert (res_i = PyNone ∨ res_i ≠ PyNone) as [-> | Hsome]
      by (destruct res_i; first [by left | by right]).
    - left. injection Hrun as <- _. by split.
    - right.
      assert ((path ← create_path (TileError := TileError) res_i tmp_dir
                         id_num;
               disk ← dump_single_object save_single_tile res_i path disk;
               Return (paths ++ [PyStr path], disk))
              = Return (paths', disk')) as Hrun'
        by (destruct res_i; done).
      clear Hrun.
      destruct (create_path (TileError := TileError) res_i tmp_dir id_num)
        as [p |] eqn:Hp; [| discriminate Hrun'].
      cbn [mbind outcome_bind] in Hrun'.
      destruct (dump_single_object save_single_tile res_i p disk)
        as [disk1 |] eqn:Hd; [| discriminate Hrun'].
      cbn [mbind outcome_bind] in Hrun'. injection Hrun' as <- _.
      exists p, disk1. by repeat split. }
  - exists PyNone. split; [reflexivity |]. split; [by left | reflexivity].
  - destruct (dump_one res_i tmp_dir id_num p disk disk1 Hp Hd)
      as (Htile & -> & _).
    eexists. split; [reflexivity |]. split; [| reflexivity].
    right. split; [exact Htile |]. split; [reflexivity |].
    apply tile_path_is_dumped, Htile.
Qed.

Lemma dump_rounds_returns (res : pyobj Dataset DataFrame Opaque)
    (tmp_dir : string) (id_list : list Z) (k : nat)
    (paths paths' : list (pyobj Dataset DataFrame Opaque))
    (disk disk' : Disk) :
  dump_rounds save_single_tile foreign_getitem res tmp_dir
    (imap (λ i x, ((k + i)%nat, x)) id_list) (paths, disk)
    = Return (paths', disk') →
  ∃ new, paths' = paths ++ new ∧ length new = length id_list ∧
    ∀ i id_num, id_list !! i = Some id_num →
      ∃ res_i out_i,
        obj_getitem foreign_getitem res (k + i) = Return res_i ∧
        new !! i = Some out_i ∧ dumped_as res_i tmp_dir id_num out_i.
Proof.
  revert k paths disk.
  induction id_list as [| id0 l IH]; intros k paths disk Hrun.
  - injection Hrun as <- _. exists []. rewrite app_nil_r.
    split; [reflexivity |]. split; [reflexivity |]. intros i id_num Hi. done.
  - cbn [imap dump_rounds] in Hrun.
    destruct (dump_round _ _ res tmp_dir (paths, disk) _)
      as [[paths1 disk1] |] eqn:Hround; [| discriminate Hrun].
    cbn [mbind outcome_bind] in Hrun.
    apply dump_round_returns in Hround as (res_0 & out_0 & Hget & Has & ->).
    rewrite (imap_ext _ (λ i x, ((S k + i)%nat, x))) in Hrun
      by (intros i x _; cbn; f_equal; lia).
    apply IH in Hrun as (new & -> & Hlen & Hnew).
    exists (out_0 :: new). rewrite <- app_assoc.
    split; [reflexivity |]. split; [cbn; by rewrite Hlen |].
    intros [| i] id_num Hi; cbn in Hi.
    + injection Hi as <-. exists res_0, out_0.
      rewrite ?Nat.add_0_r in *. by repeat split.
    + destruct (Hnew i id_num Hi) as (res_i & out_i & Hgi & Hni & Hai).
      exists res_i, out_i.
      replace (k + S i)%nat with (S k + i)%nat by lia. by repeat split.
Qed.

(** X28: whatever [dump] returns can be told apart by its consumer. With one
    id, the result was a [Dataset] or a [DataFrame] and its path, which
    [is_dumped_object] recognises, is returned. With several ids, a tuple
    with one entry per id is returned, and the entry of id number [i] stands
    for [res[i]]: [None] for [None], the recognised path made from that id
    for a [Dataset] or a [DataFrame]. Nothing is returned for an empty id
    list. *)
Theorem dump_returns_handles (res out : pyobj Dataset DataFrame Opaque)
    (tmp_dir : string) (id_list : list Z) (disk disk' : Disk) :
  dump save_single_tile foreign_getitem res tmp_dir id_list disk
    = Return (out, disk') →
  id_list ≠ [] ∧
  (∀ id_num, id_list = [id_num] →
     res ≠ PyNone ∧ dumped_as res tmp_dir id_num out) ∧
  ((1 < length id_list)%nat →
   ∃ paths, out = PyTuple paths ∧ length paths = length id_list ∧
     ∀ i id_num, id_list !! i = Some id_num →
       ∃ res_i out_i,
         obj_getitem foreign_getitem res i = Return res_i ∧
         paths !! i = Some out_i ∧ dumped_as res_i tmp_dir id_num out_i).
Proof.
  unfold dump. intros Hrun. case_bool_decide as Hlen.
  - destruct (dump_rounds _ _ res tmp_dir _ _) as [[paths disk1] |] eqn:Hloop;
      [| discriminate Hrun].
    cbn [mbind outcome_bind] in Hrun. injection Hrun as <- _.
    split; [intros ->; cbn in Hlen; lia |].
    split; [intros id_num ->; cbn in Hlen; lia |]. intros _.
    apply (dump_rounds_returns res tmp_dir id_list 0) in Hloop
      as (new & -> & Hnl & Hnew).
    exists new. by repeat split.
  - destruct id_list as [| id0 [| id1 l]]; [discriminate Hrun | |
      cbn in Hlen; lia].
    cbn [lookup list_lookup] in Hrun.
    destruct (create_path (TileError := TileError) res tmp_dir id0)
      as [p |] eqn:Hp;
      [| discriminate Hrun].
    cbn [mbind outcome_bind] in Hrun.
    destruct (dump_single_object _ res p disk) as [disk1 |] eqn:Hd;
      [| discriminate Hrun].
    cbn [mbind outcome_bind] in Hrun. injection Hrun as <- _.
    destruct (dump_one res tmp_dir id0 p disk disk1 Hp Hd)
      as (Htile & -> & _).
    split; [done |]. split; [| cbn; lia].
    intros id_num [= <-]. split; [by destruct res |].
    right. split; [exact Htile |]. split; [reflexivity |].
    apply tile_path_is_dumped, Htile.
Qed.

(** X29: what [dump] raises for one id or none: [IndexError] without an id,
    whatever the result; the exception of [dump_single_object] for a string,
    after its path was made; [TypeError] for any other object that is not a
    [Dataset] or a [DataFrame], [None] included. *)
Theorem dump_single_rejects (res : pyobj Dataset DataFrame Opaque)
    (tmp_dir : string) (id_num : Z) (disk : Disk) :
  dump save_single_tile foreign_getitem res tmp_dir [] disk
    = Raises (Builtin IndexError) ∧
  (∀ s, res = PyStr s →
     dump save_single_tile foreign_getitem res tmp_dir [id_num] disk
       = Raises (Exception "Not an arrays or points")) ∧
  (is_tile res = false → (∀ s, res ≠ PyStr s) →
     dump save_single_tile foreign_getitem res tmp_dir [id_num] disk
       = Raises (Builtin TypeError)).
Proof.
  split; [reflexivity |]. split.
  - intros s ->. reflexivity.
  - intros Htile Hstr. destruct res; try discriminate Htile; try reflexivity.
    by destruct (Hstr s).
Qed.
End WrapperObjectsFacts.

Lemma created_path_is_handle_witness :
  is_dumped_object (PyStr "out/tmp/SparseDO_7" : pyobj unit unit unit) = true.
Proof.
  destruct (created_path_is_handle (TileError := unit)
              (PyDataFrame tt : pyobj unit unit unit) "out/tmp" 7 eq_refl)
    as (p & Hp & Hd).
  vm_compute in Hp. injection Hp as <-. exact Hd.
Defined.

Lemma load_created_path_witness :
  ∃ p, create_path (TileError := unit) (PyDataFrame tt : pyobj unit unit unit)
         "DenseDO_run/tmp" 7 = Return p ∧
       load example_load_single_tile (Some p) ∅
         = example_load_single_tile Arrays p ∅.
Proof.
  apply (load_created_path example_load_single_tile
           (PyDataFrame tt) "DenseDO_run/tmp" 7 ∅).
  reflexivity.
Defined.

Lemma dumped_paths_distinct_witness :
  NoDup ((λ id_num, create_path (TileError := unit)
                      (if Z.even id_num then PyDataset tt
                       else PyDataFrame tt : pyobj unit unit unit)
                      (tmp_dir (run_calls
                                  (WrapperDisk_init example_path_join "out")
                                  example_calls).1) id_num)
           <$> concat (issued_ids
                         <$> (run_calls
                                (WrapperDisk_init example_path_join "out")
                                example_calls).2)).
Proof.
  apply (dumped_paths_distinct (TileError := unit) example_path_join "out"
           example_calls
           (λ id_num, if Z.even id_num then PyDataset tt else PyDataFrame tt)).
  - unfold example_calls. repeat (constructor; [cbn; lia |]). constructor.
  - intros id_num. destruct (Z.even id_num); reflexivity.
Defined.

Lemma load_args_handle_free_witness :
  load_args example_load_single_tile
    [PyStr "x"; PyList [PyStr "y"; PyNone]; PyTuple [PyStr "DenseDO_1"]] ∅
  = Return [PyStr "x"; PyList [PyStr "y"; PyNone];
            PyTuple [PyStr "DenseDO_1"]].
Proof. apply load_args_handle_free. reflexivity. Defined.

Lemma load_kwargs_keeps_witness :
  ∃ new_kwargs,
    load_kwargs example_load_single_tile
      [("clouds", PyList [PyStr "out/tmp/DenseDO_0"]); ("name", PyStr "x")] ∅
      = Return new_kwargs ∧
    new_kwargs !! 0%nat = Some ("clouds", PyList [PyStr "out/tmp/DenseDO_0"]).
Proof.
  eexists. split; [reflexivity |].
  apply (load_kwargs_keeps example_load_single_tile
           [("clouds", PyList [PyStr "out/tmp/DenseDO_0"]);
            ("name", PyStr "x")] _ ∅ eq_refl); reflexivity.
Defined.

Lemma example_tiles_round_trip :
  tiles_round_trip example_save_single_tile example_load_single_tile.
Proof.
  intros kind obj path disk disk' Hsave.
  unfold example_save_single_tile in Hsave. injection Hsave as <-.
  unfold example_load_single_tile.
  rewrite lookup_insert_eq. by rewrite decide_True.
Qed.

Lemma dump_load_round_trip_witness :
  load_args example_load_single_tile [PyStr "out/tmp/SparseDO_3"]
    {["out/tmp/SparseDO_3" := (Points, PyDataFrame tt)]}
  = Return [PyDataFrame tt].
Proof.
  apply (dump_load_round_trip example_load_single_tile
           example_save_single_tile example_foreign_getitem
           (PyDataFrame tt) _ "out/tmp" 3 ∅ _ example_tiles_round_trip).
  - intros d _. reflexivity.
  - reflexivity.
Defined.

Lemma example_dump_run :
  dump example_save_single_tile example_foreign_getitem example_results
    "out/tmp" [4; 5; 6]%Z ∅
  = Return (PyTuple [PyStr "out/tmp/DenseDO_4"; PyNone;
                     PyStr "out/tmp/SparseDO_6"], example_dumped).
Proof. reflexivity. Qed.

Lemma dump_returns_handles_witness :
  ∃ paths,
    dump example_save_single_tile example_foreign_getitem example_results
      "out/tmp" [4; 5; 6]%Z ∅
    = Return (PyTuple paths, example_dumped) ∧
    length paths = 3%nat.
Proof.
  destruct (dump_returns_handles _ _ _ _ _ _ _ _ example_dump_run)
    as (_ & _ & Hmulti).
  destruct Hmulti as (paths & Hout & Hlen & _); [cbn; lia |].
  exists paths. rewrite <- Hout. split; [reflexivity | exact Hlen].
Defined.

Lemma dump_single_rejects_witness :
  dump example_save_single_tile example_foreign_getitem (PyList []) "out/tmp"
    [1%Z] ∅ = Raises (Builtin TypeError).
Proof.
  destruct (dump_single_rejects example_save_single_tile
              example_foreign_getitem (PyList []) "out/tmp" 1 ∅)
    as (_ & _ & Hother).
  apply Hother; [reflexivity | intros s; discriminate].
Defined.

(** ** Padding, splitting and union *)

(** X6: padding by non-negative margins yields a region that contains the
    given one, and cropping the padded region by the given one gives the
    given one back. *)
Theorem pad_then_crop (r : region) (m0 m1 m2 m3 : Q) :
  (0 <= m0)%Q → (0 <= m1)%Q → (0 <= m2)%Q → (0 <= m3)%Q →
  within r (pad r (m0, m1, m2, m3)) ∧
  (consistent r → region_eq (crop (pad r (m0, m1, m2, m3)) r) r).
Proof.
  intros H0 H1 H2 H3.
  unfold within, consistent, region_eq, crop, pad.
  cbn [x_min x_max y_min y_max].
  split; [repeat split; lra |].
  intros [Hx Hy]. q_minmax; repeat split; lra.
Qed.

Lemma pad_then_crop_witness :
  region_eq (crop (pad (Region 0 0 10 10) (1, 2, 3, 4)%Q) (Region 0 0 10 10))
    (Region 0 0 10 10).
Proof.
  apply (pad_then_crop (Region 0 0 10 10) 1 2 3 4); try lra.
  unfold consistent; cbn; split; lra.
Defined.



